(** * CheapStop search pipeline ([main.py]) in Rocq

    A shallow embedding of [haversine] and [search_stores].

    - Python [float] is IEEE 754 binary64: the kernel's primitive [float],
      whose operations the library specifies against [SpecFloat].
    - Python [str] is a sequence of Unicode code points: [list N].
    - Python exceptions are an explicit [result] type.
    - The C library behind [math.sin], [math.cos], [math.atan2] and the
      float power operator is a parameter ([Libm]); CPython's own wrappers
      around it are modelled as written in [mathmodule.c] and
      [floatobject.c].
    - The builtin [hash] on [str] is keyed per process, so it is a
      parameter too. *)

From Stdlib Require Import ZArith List Bool Lia String Ascii.
From Stdlib Require Import Floats DecimalString.
From Stdlib Require Import Sorting.Sorted Permutation.
Import ListNotations.

Set Warnings "-inexact-float".

Local Open Scope Z_scope.

(* ================================================================== *)
(** ** Exceptions *)

Inductive exn : Type :=
| ValueError
| OverflowError
| HTTPException (status_code : Z) (detail : string).

Inductive result (A : Type) : Type :=
| Ok (a : A)
| Raise (e : exn).
Arguments Ok {A} a.
Arguments Raise {A} e.

Definition bind {A B} (r : result A) (k : A -> result B) : result B :=
  match r with
  | Ok a => k a
  | Raise e => Raise e
  end.

Notation "x <- r ;; k" := (bind r (fun x => k))
  (at level 61, r at next level, right associativity).

(* ================================================================== *)
(** ** Python strings *)

Module Str.

(** A string is its code points. *)
Definition t := list N.

(** An ASCII literal of the source. *)
Definition lit (s : string) : t :=
  List.map N_of_ascii (list_ascii_of_string s).

Definition comma : N := 44%N.

(** [Py_UNICODE_ISSPACE]: the code points [str.strip()] removes. *)
Definition isspace (c : N) : bool :=
  ((9 <=? c) && (c <=? 13) || (28 <=? c) && (c <=? 32)
   || (c =? 133) || (c =? 160) || (c =? 5760)
   || (8192 <=? c) && (c <=? 8202)
   || (c =? 8232) || (c =? 8233) || (c =? 8239) || (c =? 8287)
   || (c =? 12288))%N.

Fixpoint lstrip (s : t) : t :=
  match s with
  | c :: s' => if isspace c then lstrip s' else s
  | [] => []
  end.

Definition rstrip (s : t) : t := rev (lstrip (rev s)).

(** [s.strip()] *)
Definition strip (s : t) : t := rstrip (lstrip s).

(** [s.split(sep)] for a one-character separator: always at least one
    part, one more than there are separators. *)
Fixpoint split (sep : N) (s : t) : list t :=
  match s with
  | [] => [[]]
  | c :: s' =>
      if (c =? sep)%N then [] :: split sep s'
      else match split sep s' with
           | p :: ps => (c :: p) :: ps
           | [] => [[c]]
           end
  end.

(** Truth value of a string: non-empty. *)
Definition truthy (s : t) : bool :=
  match s with [] => false | _ :: _ => true end.

(** [str(n)] for a non-negative integer. *)
Definition of_nonneg (n : Z) : t :=
  lit (NilZero.string_of_uint (N.to_uint (Z.to_N n))).

End Str.

(* ================================================================== *)
(** ** Python floats *)

Module Float.

Local Open Scope float_scope.

(** [float(n)] for an integer: the nearest binary64. *)
Definition of_int (n : Z) : float :=
  SF2Prim (binary_normalize prec emax n 0 false).

(** Truth value of a float: [x != 0.0]. *)
Definition truthy (x : float) : bool := negb (x =? 0).

(** [copysign(v, s)] *)
Definition copysign (v s : float) : float :=
  if get_sign s then - abs v else abs v.

(** [int(x)]: truncation toward zero; NaN and the infinities raise. *)
Definition to_int (x : float) : result Z :=
  match Prim2SF x with
  | S754_nan => Raise ValueError
  | S754_infinity _ => Raise OverflowError
  | S754_zero _ => Ok 0%Z
  | S754_finite s m e => Ok (cond_Zopp s (Z.shiftl (Zpos m) e))
  end.

(** The integer nearest to [m * 2^e] ([m > 0]), ties to even. *)
Definition nearest_even (m e : Z) : Z :=
  if (0 <=? e)%Z then Z.shiftl m e
  else
    let d := Z.shiftl 1 (- e) in
    let q := (m / d)%Z in
    let r := (m mod d)%Z in
    match (2 * r ?= d)%Z with
    | Lt => q
    | Gt => (q + 1)%Z
    | Eq => if Z.even q then q else (q + 1)%Z
    end.

(** [round(x, ndigits)] for [ndigits >= 0], as [float.__round__] does it
    through correctly rounded decimal conversions: the exact value of [x]
    is rounded half-even to [ndigits] decimals, and the decimal obtained
    is converted to the nearest binary64.  NaN, infinities and zeros
    round to themselves. *)
Definition round (x : float) (ndigits : Z) : float :=
  match Prim2SF x with
  | S754_finite s m e =>
      let p := (10 ^ ndigits)%Z in
      let n := nearest_even (Zpos m * p) e in
      match n, p with
      | Zpos n', Zpos p' =>
          SF2Prim (SFdiv prec emax (S754_finite s n' 0) (S754_finite false p' 0))
      | _, _ => if s then neg_zero else zero
      end
  | _ => x
  end.

End Float.

(* ================================================================== *)
(** ** The C library and CPython's [math] wrappers *)

(** The platform's [sin], [cos], [atan2] and [pow] on doubles. *)
Record Libm : Type := {
  c_sin : float -> float;
  c_cos : float -> float;
  c_atan2 : float -> float -> float;
  c_pow : float -> float -> float;
}.

Module Math.
Section WithLibm.

Variable lm : Libm.
Local Open Scope float_scope.

(** [Py_MATH_PI] *)
Definition pi : float := 3.14159265358979323846.

(** [degToRad = Py_MATH_PI / 180.0] *)
Definition degToRad : float := pi / 180.

(** [math.radians(x)] *)
Definition radians (x : float) : float := x * degToRad.

(** [math_1]: the wrapper of the one-argument functions.  A NaN result
    from a non-NaN argument, or an infinite result from a finite
    argument, is a [ValueError]. *)
Definition math_1 (func : float -> float) (x : float) : result float :=
  let r := func x in
  if is_nan r && negb (is_nan x) then Raise ValueError
  else if is_infinity r && is_finite x then Raise ValueError
  else Ok r.

(** [math.sin], [math.cos], [math.sqrt] *)
Definition sin : float -> result float := math_1 (c_sin lm).
Definition cos : float -> result float := math_1 (c_cos lm).
Definition sqrt : float -> result float := math_1 PrimFloat.sqrt.

(** [m_atan2]: the special cases CPython settles before calling the
    platform's [atan2]. *)
Definition m_atan2 (y x : float) : float :=
  if is_nan x || is_nan y then nan
  else if is_infinity y then
    if is_infinity x then
      if negb (get_sign x) then Float.copysign (0.25 * pi) y
      else Float.copysign (0.75 * pi) y
    else Float.copysign (0.5 * pi) y
  else if is_infinity x || (y =? 0) then
    if negb (get_sign x) then Float.copysign 0 y
    else Float.copysign pi y
  else c_atan2 lm y x.

(** [math.atan2] ([math_2] around [m_atan2]) *)
Definition atan2 (y x : float) : result float :=
  let r := m_atan2 y x in
  if is_nan r then
    if negb (is_nan y) && negb (is_nan x) then Raise ValueError else Ok r
  else if is_infinity r then
    if is_finite y && is_finite x then Raise OverflowError else Ok r
  else Ok r.

(** [v ** 2] on a float ([float_pow] with [iw = 2.0]): the special
    cases first, then the platform's [pow] on the absolute value; an
    infinite result there is an [OverflowError]. *)
Definition pow2 (v : float) : result float :=
  if is_nan v then Ok v
  else if is_infinity v then Ok (abs v)
  else if v =? 0 then Ok 0
  else
    let iv := if v <? 0 then - v else v in
    if iv =? 1 then Ok 1
    else
      let ix := c_pow lm iv 2 in
      if is_infinity ix then Raise OverflowError else Ok ix.

End WithLibm.
End Math.

(* ================================================================== *)
(** ** Utilities *)

Section Haversine.

Variable lm : Libm.
Local Open Scope float_scope.

(** [haversine(lat1, lon1, lat2, lon2)]: distance in miles between two
    lat/lng points.  The [math] calls are sequenced in Python's
    evaluation order, the first exception ending the call. *)
Definition haversine (lat1 lon1 lat2 lon2 : float) : result float :=
  let R := 3958.8 in
  let phi1 := Math.radians lat1 in
  let phi2 := Math.radians lat2 in
  let dphi := Math.radians (lat2 - lat1) in
  let dlambda := Math.radians (lon2 - lon1) in
  s1 <- Math.sin lm (dphi / 2) ;;
  p1 <- Math.pow2 lm s1 ;;
  c1 <- Math.cos lm phi1 ;;
  c2 <- Math.cos lm phi2 ;;
  s2 <- Math.sin lm (dlambda / 2) ;;
  p2 <- Math.pow2 lm s2 ;;
  let a := p1 + c1 * c2 * p2 in
  sa <- Math.sqrt a ;;
  sb <- Math.sqrt (1 - a) ;;
  t <- Math.atan2 lm sa sb ;;
  let c := 2 * t in
  Ok (R * c).

End Haversine.

(** The chain definitions. *)
Module Chain.
Record t : Type := { id : Str.t; name : Str.t }.
End Chain.

Definition BASE_CHAINS : list Chain.t :=
  [ {| Chain.id := Str.lit "walmart"; Chain.name := Str.lit "Walmart Supercenter" |};
    {| Chain.id := Str.lit "target"; Chain.name := Str.lit "Target" |};
    {| Chain.id := Str.lit "kroger"; Chain.name := Str.lit "Kroger" |} ].

(* ================================================================== *)
(** ** Models *)

Module SearchRequest.
(** [radiusMiles] is [Optional[float]]: [None] when the request gives
    [null]; the field default 5.0 is applied before the route runs. *)
Record t : Type := {
  query : Str.t;
  lat : float;
  lng : float;
  radiusMiles : option float;
}.
End SearchRequest.

Module Item.
Record t : Type := { name : Str.t; price : float; quantity : Z }.
End Item.

Module StoreResult.
Record t : Type := {
  storeId : Str.t;
  storeName : Str.t;
  distanceMiles : float;
  lat : float;
  lng : float;
  totalPrice : float;
  items : list Item.t;
}.
End StoreResult.

Module SearchResponse.
Record t : Type := {
  query : Str.t;
  mode : Str.t;
  totalStores : Z;
  stores : list StoreResult.t;
}.
End SearchResponse.

(* ================================================================== *)
(** ** [list.sort(key=...)] on pairs of floats *)

Module Sort.

Local Open Scope float_scope.

Definition key : Type := (float * float)%type.

(** [a < b] on 2-tuples of floats: the first component that is not
    [==] decides. *)
Definition lt (a b : key) : bool :=
  if negb (fst a =? fst b) then fst a <? fst b
  else if negb (snd a =? snd b) then snd a <? snd b
  else false.

(** [a == b] on 2-tuples of floats. *)
Definition eq (a b : key) : bool :=
  (fst a =? fst b) && (snd a =? snd b).

Section Stable.
Context {A : Type} (keyfn : A -> key).

(** [x] goes behind the elements whose key is below its own and in
    front of the first one that is not. *)
Fixpoint insert (x : A) (l : list A) : list A :=
  match l with
  | [] => [x]
  | y :: l' => if lt (keyfn y) (keyfn x) then y :: insert x l'
               else x :: y :: l'
  end.

(** [l.sort(key=keyfn)].  [list.sort] is a stable sort that compares
    keys with [<] only; on keys that [<] orders totally (no NaN) its
    result is the one stable sorted arrangement, which this insertion
    sort computes. *)
Definition sort (l : list A) : list A := fold_right insert [] l.

End Stable.

End Sort.

(* ================================================================== *)
(** ** Routes *)

Section Routes.

Variable lm : Libm.

(** The builtin [hash] on [str] in the running process. *)
Variable hash : Str.t -> Z.

Local Open Scope float_scope.

(** [[part.strip() for part in query.split(',') if part.strip()]] *)
Definition parse_items (query : Str.t) : list Str.t :=
  List.map Str.strip
    (List.filter (fun part => Str.truthy (Str.strip part))
       (Str.split Str.comma query)).

Definition offsets : list (float * float) :=
  [ (0.010, 0.012);
    (-0.008, 0.009);
    (0.006, -0.010) ].

(** [payload.radiusMiles and dist > payload.radiusMiles] *)
Definition outside_radius (radiusMiles : option float) (dist : float) : bool :=
  match radiusMiles with
  | None => false
  | Some r => Float.truthy r && (r <? dist)
  end.

(** [max(1.0, (len(name) % 7) + 1)]: the integer wins when it is above
    1.0, and enters the product as a float. *)
Definition base (name : Str.t) : float :=
  let k := (Z.of_nat (List.length name) mod 7 + 1)%Z in
  if (1 <? k)%Z then Float.of_int k else 1.

(** [(hash(name + chain["id"]) % 100) / 250.0] *)
Definition jitter (name : Str.t) (chain : Chain.t) : float :=
  Float.of_int (hash (name ++ Chain.id chain) mod 100) / 250.

(** The pseudo-price of one item at one chain. *)
Definition price (name : Str.t) (chain : Chain.t) : float :=
  Float.round (base name * 0.99 + jitter name chain) 2.

(** The inner loop: the enriched items, in query order, and their
    running total. *)
Definition enrich (items : list Str.t) (chain : Chain.t)
  : list Item.t * float :=
  fold_left
    (fun '(enriched, total) name =>
       let p := price name chain in
       (enriched ++ [ {| Item.name := name; Item.price := p;
                         Item.quantity := 1 |} ],
        total + p))
    items ([], 0).

(** [f"{chain['id']}-{abs(int(store_lat*1000))}-{abs(int(store_lng*1000))}"] *)
Definition store_id (chain : Chain.t) (store_lat store_lng : float)
  : result Str.t :=
  a <- Float.to_int (store_lat * 1000) ;;
  b <- Float.to_int (store_lng * 1000) ;;
  Ok (Chain.id chain ++ Str.lit "-" ++ Str.of_nonneg (Z.abs a)
        ++ Str.lit "-" ++ Str.of_nonneg (Z.abs b)).

(** The head of a turn of the loop over [zip(BASE_CHAINS, offsets)]: the
    chain's store is put at the user's position plus the offset, and its
    distance from the user is computed. *)
Definition candidate (payload : SearchRequest.t)
    (entry : Chain.t * (float * float))
  : result (Chain.t * float * float * float) :=
  let '(chain, (dlat, dlng)) := entry in
  let store_lat := SearchRequest.lat payload + dlat in
  let store_lng := SearchRequest.lng payload + dlng in
  dist <- haversine lm (SearchRequest.lat payload) (SearchRequest.lng payload)
            store_lat store_lng ;;
  Ok (chain, store_lat, store_lng, dist).

(** The rest of the turn: a store outside the radius is skipped, any
    other is priced and appended.  [stores] as the turn leaves it. *)
Definition visit (payload : SearchRequest.t) (items : list Str.t)
    (stores : list StoreResult.t) (entry : Chain.t * (float * float))
  : result (list StoreResult.t) :=
  c <- candidate payload entry ;;
  let '(chain, store_lat, store_lng, dist) := c in
  if outside_radius (SearchRequest.radiusMiles payload) dist then Ok stores
  else
    let '(enriched, total) := enrich items chain in
    sid <- store_id chain store_lat store_lng ;;
    Ok (stores ++
          [ {| StoreResult.storeId := sid;
               StoreResult.storeName := Chain.name chain;
               StoreResult.distanceMiles := Float.round dist 2;
               StoreResult.lat := Float.round store_lat 6;
               StoreResult.lng := Float.round store_lng 6;
               StoreResult.items := enriched;
               StoreResult.totalPrice := Float.round total 2 |} ]).

(** The loop: the turns in order, the first exception ending it. *)
Fixpoint visit_all (payload : SearchRequest.t) (items : list Str.t)
    (stores : list StoreResult.t)
    (entries : list (Chain.t * (float * float)))
  : result (list StoreResult.t) :=
  match entries with
  | [] => Ok stores
  | entry :: rest =>
      stores' <- visit payload items stores entry ;;
      visit_all payload items stores' rest
  end.

Definition sort_key (s : StoreResult.t) : Sort.key :=
  (StoreResult.totalPrice s, StoreResult.distanceMiles s).

(** [POST /api/search] *)
Definition search_stores (payload : SearchRequest.t)
  : result SearchResponse.t :=
  let items := parse_items (SearchRequest.query payload) in
  match items with
  | [] => Raise (HTTPException 400
                   "Please provide at least one item in the query.")
  | _ :: _ =>
      stores <- visit_all payload items [] (combine BASE_CHAINS offsets) ;;
      let stores := Sort.sort sort_key stores in
      Ok {| SearchResponse.query := SearchRequest.query payload;
            SearchResponse.mode := Str.lit "live";
            SearchResponse.totalStores := Z.of_nat (List.length stores);
            SearchResponse.stores := stores |}
  end.

End Routes.

(* ================================================================== *)
(** ** A concrete platform, to run the model

    A small C library by truncated power series, good near zero, and a
    string hash by multiply-and-add.  They stand in for the platform where
    a statement is evaluated on an example request. *)

Module Poly.

Local Open Scope float_scope.

Definition sin (x : float) : float :=
  if is_finite x then
    let x2 := x * x in
    let r := x * (1 - x2 / 6 * (1 - x2 / 20 * (1 - x2 / 42 * (1 - x2 / 72)))) in
    if abs r <=? 1 then r else r * 0
  else nan.

Definition cos (x : float) : float :=
  if is_finite x then
    let x2 := x * x in
    let r := 1 - x2 / 2 * (1 - x2 / 12 * (1 - x2 / 30 * (1 - x2 / 56))) in
    if abs r <=? 1 then r else 1
  else nan.

Definition atan (t : float) : float :=
  let t2 := t * t in
  t * (1 - t2 * (1 / 3 - t2 * (1 / 5 - t2 * (1 / 7 - t2 / 9)))).

Definition atan2 (y x : float) : float :=
  let t := abs (y / x) in
  let r := if t <=? 1 then atan t else Math.pi / 2 - atan (1 / t) in
  Float.copysign r y.

Definition pow (x y : float) : float :=
  if y =? 2 then x * x else nan.

Definition libm : Libm :=
  {| c_sin := sin; c_cos := cos; c_atan2 := atan2; c_pow := pow |}.

Definition hash (s : Str.t) : Z :=
  fold_left (fun h c => (h * 31 + Z.of_N c) mod 2 ^ 61)%Z s 7%Z.

End Poly.


(* ================================================================== *)
(** ** What the proofs ask of the platform's library

    Each is a property ISO C (Annex F) requires of, or every C library in
    use gives to, its [sin], [cos], [atan2] and [pow]. *)

Module Platform.

Local Open Scope float_scope.

(** [sin(+0)] is [+0]. *)
Definition sin_zero (lm : Libm) : Prop := c_sin lm 0 = 0.

(** [sin] is odd. *)
Definition sin_odd (lm : Libm) : Prop :=
  forall x, c_sin lm (- x) = - c_sin lm x.

(** [sin] and [cos] return a NaN or a value of magnitude at most 1. *)
Definition sin_range (lm : Libm) : Prop :=
  forall x, is_nan (c_sin lm x) = true \/ (abs (c_sin lm x) <=? 1) = true.

Definition cos_range (lm : Libm) : Prop :=
  forall x, is_nan (c_cos lm x) = true \/ (abs (c_cos lm x) <=? 1) = true.

(** [cos] of a finite argument is not a NaN. *)
Definition cos_total (lm : Libm) : Prop :=
  forall x, is_finite x = true -> is_nan (c_cos lm x) = false.

(** [pow(x, 2.0)] of a finite [x] is not a NaN. *)
Definition pow_total (lm : Libm) : Prop :=
  forall x, is_finite x = true -> is_nan (c_pow lm x 2) = false.

(** [atan2(y, x)] is not negative when [y] is positive. *)
Definition atan2_sign (lm : Libm) : Prop :=
  forall y x, (0 <? y) = true -> (c_atan2 lm y x <? 0) = false.

(** [sin] and [cos] of a NaN are NaN. *)
Definition nan_in_nan_out (lm : Libm) : Prop :=
  c_sin lm nan = nan /\ c_cos lm nan = nan.

(** What the sign of a distance rests on. *)
Definition ranges (lm : Libm) : Prop :=
  sin_range lm /\ cos_range lm /\ pow_total lm /\ atan2_sign lm.

End Platform.

(* ================================================================== *)
(** ** The diagnostic route

    [test_database] reads three things from outside: what
    [from database import db] gives, what the handle [db] does, and the
    process environment.  They are the fields of [Env].  The handle is
    taken to be what the [database] module of the template provides: an
    object whose [name], when it has one, is a plain string attribute,
    and whose [list_collection_names()] returns a list of strings or
    raises an [Exception]. *)

Module Diag.

(** The values the response dictionary holds. *)
Inductive value : Type :=
| VNone
| VStr (s : Str.t)
| VList (l : list Str.t).

(** A [dict] with string keys, in insertion order. *)
Definition dict : Type := list (string * value).

(** [d[k] = v]: an existing key keeps its place. *)
Fixpoint setitem (d : dict) (k : string) (v : value) : dict :=
  match d with
  | [] => [(k, v)]
  | (k', v') :: d' =>
      if String.eqb k' k then (k', v) :: d'
      else (k', v') :: setitem d' k v
  end.

(** [d.get(k)] *)
Fixpoint getitem (d : dict) (k : string) : option value :=
  match d with
  | [] => None
  | (k', v') :: d' => if String.eqb k' k then Some v' else getitem d' k
  end.

(** [db.list_collection_names()]: a list, or an exception [e] given by
    [str(e)]. *)
Inductive listing : Type :=
| Lists (collections : list Str.t)
| ListingRaises (message : Str.t).

Record Database : Type := {
  name : option Str.t;
  list_collection_names : listing;
}.

(** [from database import db]: an [ImportError], another [Exception]
    [e] given by [str(e)], or the value of [db], which may be [None]. *)
Inductive import_result : Type :=
| ImportError
| ImportRaises (message : Str.t)
| Imported (db : option Database).

Record Env : Type := {
  import_db : import_result;
  getenv : string -> option Str.t;
}.

(** Truth value of what [os.getenv] returns: a string that is not
    empty. *)
Definition env_truthy (v : option Str.t) : bool :=
  match v with
  | Some s => Str.truthy s
  | None => false
  end.

(** The marks the messages start with. *)
Definition check_mark : Str.t := [9989%N].
Definition cross_mark : Str.t := [10060%N].
Definition warning_sign : Str.t := [9888%N; 65039%N].

(** [GET /test] *)
Definition test_database (env : Env) : dict :=
  let response : dict :=
    [ ("backend"%string, VStr (check_mark ++ Str.lit " Running"));
      ("database"%string, VStr (cross_mark ++ Str.lit " Not Available"));
      ("database_url"%string, VNone);
      ("database_name"%string, VNone);
      ("connection_status"%string, VStr (Str.lit "Not Connected"));
      ("collections"%string, VList []) ] in
  let response :=
    match import_db env with
    | Imported (Some db) =>
        let response :=
          setitem response "database"
            (VStr (check_mark ++ Str.lit " Available")) in
        let response :=
          setitem response "database_url"
            (VStr (check_mark ++ Str.lit " Configured")) in
        let response :=
          setitem response "database_name"
            (VStr (match name db with
                   | Some n => n
                   | None => check_mark ++ Str.lit " Connected"
                   end)) in
        let response :=
          setitem response "connection_status" (VStr (Str.lit "Connected")) in
        match list_collection_names db with
        | Lists collections =>
            let response :=
              setitem response "collections" (VList (firstn 10 collections)) in
            setitem response "database"
              (VStr (check_mark ++ Str.lit " Connected & Working"))
        | ListingRaises e =>
            setitem response "database"
              (VStr (warning_sign ++ Str.lit "  Connected but Error: "
                       ++ firstn 50 e))
        end
    | Imported None =>
        setitem response "database"
          (VStr (warning_sign ++ Str.lit "  Available but not initialized"))
    | ImportError =>
        setitem response "database"
          (VStr (cross_mark
                   ++ Str.lit " Database module not found (run enable-database first)"))
    | ImportRaises e =>
        setitem response "database"
          (VStr (cross_mark ++ Str.lit " Error: " ++ firstn 50 e))
    end in
  (* Check environment variables *)
  let response :=
    setitem response "database_url"
      (VStr (if env_truthy (getenv env "DATABASE_URL")
             then check_mark ++ Str.lit " Set"
             else cross_mark ++ Str.lit " Not Set")) in
  let response :=
    setitem response "database_name"
      (VStr (if env_truthy (getenv env "DATABASE_NAME")
             then check_mark ++ Str.lit " Set"
             else cross_mark ++ Str.lit " Not Set")) in
  response.

End Diag.

(* ================================================================== *)
(** ** Example requests *)

Module Example.

Local Open Scope float_scope.

(** Two items, a user in New Jersey, the default radius. *)
Definition request : SearchRequest.t :=
  {| SearchRequest.query := Str.lit "eggs, milk";
     SearchRequest.lat := 40;
     SearchRequest.lng := -74;
     SearchRequest.radiusMiles := Some 5 |}.

(** The same with a radius between the distances of the three stores. *)
Definition request_near : SearchRequest.t :=
  {| SearchRequest.query := Str.lit "eggs, milk";
     SearchRequest.lat := 40;
     SearchRequest.lng := -74;
     SearchRequest.radiusMiles := Some 0.8 |}.

(** The same with a negative radius. *)
Definition request_negative : SearchRequest.t :=
  {| SearchRequest.query := Str.lit "eggs, milk";
     SearchRequest.lat := 40;
     SearchRequest.lng := -74;
     SearchRequest.radiusMiles := Some (-1) |}.

(** A finite latitude whose thousandfold is not, and no radius. *)
Definition request_far : SearchRequest.t :=
  {| SearchRequest.query := Str.lit "eggs";
     SearchRequest.lat := 1e308;
     SearchRequest.lng := 0;
     SearchRequest.radiusMiles := None |}.

(** NaN coordinates and a negative radius. *)
Definition request_nan : SearchRequest.t :=
  {| SearchRequest.query := Str.lit "eggs";
     SearchRequest.lat := nan;
     SearchRequest.lng := nan;
     SearchRequest.radiusMiles := Some (-1) |}.

Definition walmart : Chain.t :=
  {| Chain.id := Str.lit "walmart"; Chain.name := Str.lit "Walmart Supercenter" |}.

End Example.

(* ================================================================== *)
(** ** Facts about binary64 arithmetic

    Read off the specification the library gives of the primitive
    operations ([SpecFloat]). *)

Module FloatFacts.

Local Open Scope float_scope.

Local Abbreviation B2SF := Prim2SF.

(** *** Classes, read off the specification value *)

Definition sf_is_nan (f : spec_float) : bool :=
  match f with S754_nan => true | _ => false end.
Definition sf_is_inf (f : spec_float) : bool :=
  match f with S754_infinity _ => true | _ => false end.
Definition sf_is_zero (f : spec_float) : bool :=
  match f with S754_zero _ => true | _ => false end.
Definition sf_sign (f : spec_float) : bool :=
  match f with
  | S754_zero s | S754_infinity s | S754_finite s _ _ => s
  | S754_nan => false
  end.

Lemma SFcompare_refl f : f <> S754_nan -> SFcompare f f = Some Eq.
Proof.
  destruct f as [s|s| |s m e]; simpl; intros H; try congruence.
  - destruct s; reflexivity.
  - rewrite Z.compare_refl, Pos.compare_cont_refl. destruct s; reflexivity.
Qed.

Lemma is_nan_spec x : is_nan x = sf_is_nan (B2SF x).
Proof.
  unfold is_nan. rewrite eqb_spec. unfold SFeqb.
  destruct (B2SF x) as [s|s| |s m e] eqn:E; try reflexivity.
  - destruct s; reflexivity.
  - rewrite SFcompare_refl by discriminate. reflexivity.
Qed.

Lemma is_infinity_spec x : is_infinity x = sf_is_inf (B2SF x).
Proof.
  unfold is_infinity. rewrite eqb_spec, abs_spec. unfold SFeqb.
  destruct (B2SF x) as [s|s| |s m e]; reflexivity.
Qed.

Lemma is_zero_spec x : (x =? 0) = sf_is_zero (B2SF x).
Proof.
  rewrite eqb_spec. unfold SFeqb.
  destruct (B2SF x) as [s|s| |s m e]; try reflexivity; destruct s; reflexivity.
Qed.

Lemma is_finite_spec x :
  is_finite x = negb (sf_is_nan (B2SF x)) && negb (sf_is_inf (B2SF x)).
Proof.
  unfold is_finite. rewrite is_nan_spec, is_infinity_spec.
  destruct (B2SF x); reflexivity.
Qed.

Lemma get_sign_spec x : get_sign x = sf_sign (B2SF x).
Proof.
  unfold get_sign, is_zero. rewrite is_zero_spec.
  destruct (B2SF x) as [s|s| |s m e] eqn:E; simpl.
  - rewrite ltb_spec, div_spec, E. destruct s; reflexivity.
  - rewrite ltb_spec, E. destruct s; reflexivity.
  - rewrite ltb_spec, E. reflexivity.
  - rewrite ltb_spec, E. destruct s; reflexivity.
Qed.

Lemma nan_unique x : is_nan x = true -> x = nan.
Proof.
  rewrite is_nan_spec. intros H. apply Prim2SF_inj.
  destruct (B2SF x); try discriminate. reflexivity.
Qed.


(** *** Rounding keeps the sign and never makes a NaN *)

Lemma iter_pos_inv {A} (P : A -> Prop) (f : A -> A) :
  (forall x, P x -> P (f x)) -> forall n x, P x -> P (iter_pos f n x).
Proof. intros Hf. induction n; simpl; intros; auto. Qed.

Lemma shr_1_nonneg mrs : (0 <= shr_m mrs)%Z -> (0 <= shr_m (shr_1 mrs))%Z.
Proof.
  destruct mrs as [m r s]; simpl. destruct m as [|p|p]; simpl; try lia;
    destruct p; simpl; lia.
Qed.

Lemma shr_nonneg mrs e n :
  (0 <= shr_m mrs)%Z -> (0 <= shr_m (fst (shr mrs e n)))%Z.
Proof.
  intros H. unfold shr. destruct n; simpl; auto.
  apply iter_pos_inv with (P := fun r => (0 <= shr_m r)%Z); auto using shr_1_nonneg.
Qed.

Lemma shr_fexp_nonneg m e l :
  (0 <= m)%Z -> (0 <= shr_m (fst (shr_fexp prec emax m e l)))%Z.
Proof.
  intros H. unfold shr_fexp. apply shr_nonneg.
  destruct l as [|c]; [|destruct c]; simpl; exact H.
Qed.

Lemma round_nearest_even_nonneg m l :
  (0 <= m)%Z -> (0 <= round_nearest_even m l)%Z.
Proof.
  intros H. destruct l as [|c]; [|destruct c]; simpl; try lia.
  destruct (Z.even m); lia.
Qed.

(** A specification value that is not NaN and carries sign [s]. *)
Definition signed (s : bool) (f : spec_float) : Prop :=
  sf_is_nan f = false /\ sf_sign f = s.

Lemma bra_signed s m e l :
  (0 <= m)%Z -> signed s (binary_round_aux prec emax s m e l).
Proof.
  intros H. unfold binary_round_aux.
  pose proof (shr_fexp_nonneg m e l H) as H1.
  destruct (shr_fexp prec emax m e l) as [mrs' e'] eqn:E1. simpl in H1.
  pose proof (shr_fexp_nonneg _ e' loc_Exact
                (round_nearest_even_nonneg _ (loc_of_shr_record mrs') H1)) as H2.
  destruct (shr_fexp prec emax (round_nearest_even _ _) e' loc_Exact)
    as [mrs'' e''] eqn:E2. simpl in H2.
  destruct (shr_m mrs'') as [|p|p]; try lia.
  - split; reflexivity.
  - destruct (Z.leb e'' (emax - prec)); split; reflexivity.
Qed.

Lemma bra_opp s m e l :
  binary_round_aux prec emax (negb s) m e l
  = SFopp (binary_round_aux prec emax s m e l).
Proof.
  unfold binary_round_aux.
  destruct (shr_fexp prec emax m e l) as [mrs' e'].
  destruct (shr_fexp prec emax _ e' loc_Exact) as [mrs'' e''].
  destruct (shr_m mrs''); try reflexivity.
  destruct (Z.leb e'' (emax - prec)); reflexivity.
Qed.

Lemma binary_round_signed s m e : signed s (binary_round prec emax s m e).
Proof.
  unfold binary_round. destruct (shl_align _ _ _) as [mz ez].
  apply bra_signed. lia.
Qed.

Lemma binary_round_opp s m e :
  binary_round prec emax (negb s) m e = SFopp (binary_round prec emax s m e).
Proof.
  unfold binary_round. destruct (shl_align _ _ _) as [mz ez]. apply bra_opp.
Qed.

Lemma binary_normalize_not_nan m e sz :
  sf_is_nan (binary_normalize prec emax m e sz) = false.
Proof.
  destruct m; simpl; [reflexivity| |]; apply binary_round_signed.
Qed.

(** *** Multiplication *)

Lemma SFmul_comm x y : SFmul prec emax x y = SFmul prec emax y x.
Proof.
  destruct x as [sx|sx| |sx mx ex], y as [sy|sy| |sy my ey]; simpl;
    try reflexivity; try (rewrite xorb_comm; reflexivity).
  rewrite xorb_comm, Pos.mul_comm, Z.add_comm. reflexivity.
Qed.

Lemma SFmul_opp_l x y :
  SFmul prec emax (SFopp x) y = SFopp (SFmul prec emax x y).
Proof.
  destruct x as [sx|sx| |sx mx ex], y as [sy|sy| |sy my ey]; simpl;
    try reflexivity; try (rewrite <- negb_xorb_l; reflexivity).
  rewrite <- negb_xorb_l. apply bra_opp.
Qed.

Lemma mul_comm x y : (x * y = y * x)%float.
Proof.
  apply Prim2SF_inj. rewrite !mul_spec. apply SFmul_comm.
Qed.

Lemma mul_opp_l x y : (- x * y = - (x * y))%float.
Proof.
  apply Prim2SF_inj. rewrite opp_spec, !mul_spec, opp_spec. apply SFmul_opp_l.
Qed.

(** The product is a NaN only from a NaN or from zero times infinity. *)
Lemma SFmul_signed x y :
  sf_is_nan x = false -> sf_is_nan y = false ->
  sf_is_zero x && sf_is_inf y = false ->
  sf_is_inf x && sf_is_zero y = false ->
  signed (xorb (sf_sign x) (sf_sign y)) (SFmul prec emax x y).
Proof.
  destruct x as [sx|sx| |sx mx ex], y as [sy|sy| |sy my ey]; simpl;
    intros; try discriminate; try (split; reflexivity).
  apply bra_signed. lia.
Qed.


(** *** Addition and subtraction *)

Lemma SFadd_not_nan x y :
  sf_is_nan x = false -> sf_is_nan y = false ->
  sf_is_inf x && sf_is_inf y = false ->
  sf_is_nan (SFadd prec emax x y) = false.
Proof.
  destruct x as [sx|sx| |sx mx ex], y as [sy|sy| |sy my ey]; simpl;
    intros; try discriminate; try reflexivity.
  - destruct sx, sy; reflexivity.
  - apply binary_normalize_not_nan.
Qed.

Lemma SFsub_not_nan x y :
  sf_is_nan x = false -> sf_is_nan y = false ->
  sf_is_inf x && sf_is_inf y = false ->
  sf_is_nan (SFsub prec emax x y) = false.
Proof.
  destruct x as [sx|sx| |sx mx ex], y as [sy|sy| |sy my ey]; simpl;
    intros; try discriminate; try reflexivity.
  - destruct sx, sy; reflexivity.
  - apply binary_normalize_not_nan.
Qed.

Lemma binary_normalize_opp m e :
  m <> 0%Z ->
  binary_normalize prec emax (- m) e false
  = SFopp (binary_normalize prec emax m e false).
Proof.
  destruct m as [|p|p]; simpl; intros H; try congruence.
  - apply (binary_round_opp false).
  - apply (binary_round_opp true).
Qed.

(** [y - x] is the opposite of [x - y], except that both are [+0] when
    the difference is exactly zero. *)
Lemma SFsub_antisym x y :
  SFsub prec emax y x = SFopp (SFsub prec emax x y)
  \/ (SFsub prec emax x y = S754_zero false
      /\ SFsub prec emax y x = S754_zero false).
Proof.
  destruct x as [sx|sx| |sx mx ex], y as [sy|sy| |sy my ey]; simpl;
    try (left; reflexivity);
    try (destruct sx, sy; simpl; auto; fail).
  rewrite (Z.min_comm ey ex).
  set (a := cond_Zopp sx _). set (b := cond_Zopp sy _).
  destruct (Z.eq_dec (a - b) 0) as [E|E].
  - right. replace (b - a)%Z with 0%Z by lia. rewrite E. auto.
  - left. replace (b - a)%Z with (- (a - b))%Z by lia.
    apply binary_normalize_opp. exact E.
Qed.

Lemma SFsub_diag x :
  sf_is_nan x = false -> sf_is_inf x = false ->
  SFsub prec emax x x = S754_zero false.
Proof.
  destruct x as [sx|sx| |sx mx ex]; simpl; intros; try discriminate.
  - destruct sx; reflexivity.
  - rewrite Z.sub_diag. reflexivity.
Qed.

(** *** Division and square root *)

Lemma SFdiv_opp_l x y :
  SFdiv prec emax (SFopp x) y = SFopp (SFdiv prec emax x y).
Proof.
  destruct x as [sx|sx| |sx mx ex], y as [sy|sy| |sy my ey]; simpl;
    try reflexivity; try (rewrite <- negb_xorb_l; reflexivity).
  destruct (SFdiv_core_binary prec emax (Z.pos mx) ex (Z.pos my) ey)
    as [[mz ez] lz].
  rewrite <- negb_xorb_l. apply bra_opp.
Qed.

Lemma SFdiv_core_nonneg mx ex my ey :
  (0 <= fst (fst (SFdiv_core_binary prec emax (Z.pos mx) ex (Z.pos my) ey)))%Z.
Proof.
  unfold SFdiv_core_binary.
  set (s := (ex - ey - _)%Z).
  set (m' := match s with Z.pos _ => _ | Z0 => _ | Z.neg _ => _ end).
  assert (Hm : (0 <= m')%Z).
  { unfold m'. destruct s; try lia. apply Z.shiftl_nonneg. lia. }
  pose proof (Z_div_mod m' (Z.pos my) eq_refl) as H.
  destruct (Z.div_eucl m' (Z.pos my)) as [q r]. simpl.
  destruct H as [H1 H2]. nia.
Qed.

(** A quotient by a finite non-zero divisor is a NaN only from a NaN. *)
Lemma SFdiv_not_nan x sy my ey :
  sf_is_nan x = false ->
  sf_is_nan (SFdiv prec emax x (S754_finite sy my ey)) = false.
Proof.
  destruct x as [sx|sx| |sx mx ex]; simpl; intros; try discriminate;
    try reflexivity.
  pose proof (SFdiv_core_nonneg mx ex my ey) as H0.
  destruct (SFdiv_core_binary prec emax (Z.pos mx) ex (Z.pos my) ey)
    as [[mz ez] lz]. simpl in H0.
  apply bra_signed. exact H0.
Qed.

Lemma SFsqrt_core_nonneg m e :
  (0 <= fst (fst (SFsqrt_core_binary prec emax (Z.pos m) e)))%Z.
Proof.
  unfold SFsqrt_core_binary.
  set (s := (e - _)%Z).
  set (m' := match s with Z.pos _ => _ | Z0 => _ | Z.neg _ => _ end).
  assert (Hm : (0 <= m')%Z).
  { unfold m'. destruct s; try lia. apply Z.shiftl_nonneg. lia. }
  pose proof (Z.sqrtrem_spec m' Hm) as H.
  destruct (Z.sqrtrem m') as [q r]. simpl. lia.
Qed.

(** The root of a value that is not NaN is a NaN (the argument was
    negative), a zero of the argument's sign, or carries sign [+]. *)
Lemma SFsqrt_class x :
  sf_is_nan (SFsqrt prec emax x) = true
  \/ (sf_is_zero x = true /\ SFsqrt prec emax x = x)
  \/ (sf_is_zero x = false /\ sf_sign x = false
      /\ signed false (SFsqrt prec emax x)).
Proof.
  destruct x as [sx|sx| |sx mx ex]; simpl; auto.
  - destruct sx; simpl; auto. right. right. repeat split.
  - destruct sx; simpl; auto. right. right. split; [reflexivity|].
    split; [reflexivity|].
    pose proof (SFsqrt_core_nonneg mx ex) as H0.
    destruct (SFsqrt_core_binary prec emax (Z.pos mx) ex) as [[mz ez] lz].
    simpl in H0. apply bra_signed. exact H0.
Qed.


(** *** No overflow in a product of two values of magnitude at most 1 *)

Lemma digits2_upper p : (Z.pos p < 2 ^ Z.pos (digits2_pos p))%Z.
Proof.
  induction p; simpl digits2_pos; rewrite ?Pos2Z.inj_succ, ?Z.pow_succ_r by lia;
    lia.
Qed.

Lemma digits2_lower p : (2 ^ (Z.pos (digits2_pos p) - 1) <= Z.pos p)%Z.
Proof.
  induction p; simpl digits2_pos; rewrite ?Pos2Z.inj_succ;
    try (replace (Z.succ (Z.pos (digits2_pos p)) - 1)%Z
           with (Z.succ (Z.pos (digits2_pos p) - 1))%Z by lia;
         rewrite Z.pow_succ_r by lia; lia).
  simpl. lia.
Qed.

Lemma Zdigits2_le m k :
  (0 <= m)%Z -> (0 <= k)%Z -> (m < 2 ^ k)%Z -> (Zdigits2 m <= k)%Z.
Proof.
  intros Hm Hk H. destruct m as [|p|p]; simpl; try lia.
  pose proof (digits2_lower p) as L.
  destruct (Z_lt_le_dec k (Z.pos (digits2_pos p))) as [C|C]; [|exact C].
  exfalso.
  assert (2 ^ k <= 2 ^ (Z.pos (digits2_pos p) - 1))%Z
    by (apply Z.pow_le_mono_r; lia).
  lia.
Qed.

Lemma shr_1_bound M mrs :
  (0 <= shr_m mrs <= M)%Z -> (0 <= shr_m (shr_1 mrs) <= M)%Z.
Proof.
  destruct mrs as [m r s]; simpl. destruct m as [|p|p]; simpl; try lia;
    destruct p; simpl; lia.
Qed.

Lemma shr_bound M mrs e n :
  (0 <= shr_m mrs <= M)%Z ->
  (0 <= shr_m (fst (shr mrs e n)) <= M)%Z
  /\ (snd (shr mrs e n) <= Z.max e (e + n))%Z.
Proof.
  intros H. unfold shr. destruct n; simpl; try (split; [exact H|lia]).
  split; [|lia].
  apply iter_pos_inv with (P := fun r => (0 <= shr_m r <= M)%Z);
    auto using shr_1_bound.
Qed.

Lemma fexp_eq z : fexp prec emax z = Z.max (z - 53) (-1074).
Proof. reflexivity. Qed.

Lemma shr_fexp_bound M k m e l :
  (0 <= m <= M)%Z -> (0 <= k)%Z -> (M < 2 ^ k)%Z ->
  (0 <= shr_m (fst (shr_fexp prec emax m e l)) <= M)%Z
  /\ (snd (shr_fexp prec emax m e l) <= Z.max e (Z.max (k + e - 53) (-1074)))%Z.
Proof.
  intros Hm Hk HM.
  assert (Hn : exists n, shr_fexp prec emax m e l
                         = shr (shr_record_of_loc m l) e n
                         /\ n = (Z.max (Zdigits2 m + e - 53) (-1074) - e)%Z)
    by (eexists; split; reflexivity).
  destruct Hn as [n [-> Hn]].
  assert (H0 : (0 <= shr_m (shr_record_of_loc m l) <= M)%Z).
  { destruct l as [|c]; [|destruct c]; simpl; exact Hm. }
  destruct (shr_bound M _ e n H0) as [H1 H2].
  split; [exact H1|].
  assert (Zdigits2 m <= k)%Z by (apply Zdigits2_le; lia).
  lia.
Qed.

Definition sf_one : spec_float := S754_finite false 4503599627370496 (-52).

Lemma valid_digits s m e :
  valid_binary (S754_finite s m e) = true -> (Z.pos m < 2 ^ 53)%Z.
Proof.
  unfold valid_binary, bounded, canonical_mantissa.
  rewrite andb_true_iff, Z.eqb_eq, fexp_eq. intros [H _].
  assert (Z.pos (digits2_pos m) <= 53)%Z by lia.
  pose proof (digits2_upper m).
  assert (2 ^ Z.pos (digits2_pos m) <= 2 ^ 53)%Z
    by (apply Z.pow_le_mono_r; lia).
  lia.
Qed.

Lemma SFleb_abs_one s m e :
  SFleb (SFabs (S754_finite s m e)) sf_one = true -> (e <= -52)%Z.
Proof.
  unfold SFleb, SFabs, SFcompare, sf_one.
  destruct (Z.compare_spec e (-52)); lia.
Qed.

Lemma SFmul_unit_range x y :
  valid_binary x = true -> valid_binary y = true ->
  SFleb (SFabs x) sf_one = true -> SFleb (SFabs y) sf_one = true ->
  sf_is_nan (SFmul prec emax x y) = false
  /\ sf_is_inf (SFmul prec emax x y) = false.
Proof.
  destruct x as [sx|sx| |sx mx ex], y as [sy|sy| |sy my ey];
    intros Vx Vy Lx Ly; try discriminate; try (split; reflexivity).
  apply valid_digits in Vx, Vy. apply SFleb_abs_one in Lx, Ly.
  unfold SFmul, binary_round_aux.
  assert (HM : (Z.pos (mx * my) < 2 ^ 106)%Z).
  { rewrite Pos2Z.inj_mul. change (2 ^ 106)%Z with (2 ^ 53 * 2 ^ 53)%Z. nia. }
  destruct (shr_fexp_bound (Z.pos (mx * my)) 106 (Z.pos (mx * my)) (ex + ey)
              loc_Exact) as [B1 E1]; try lia.
  destruct (shr_fexp prec emax (Z.pos (mx * my)) (ex + ey) loc_Exact)
    as [mrs' e'] eqn:S1. cbn [fst snd] in B1, E1.
  set (m2 := round_nearest_even (shr_m mrs') (loc_of_shr_record mrs')).
  assert (B2 : (0 <= m2 <= Z.pos (mx * my) + 1)%Z).
  { unfold m2. destruct (loc_of_shr_record mrs') as [|c]; [|destruct c];
      simpl; try lia. destruct (Z.even (shr_m mrs')); lia. }
  destruct (shr_fexp_bound (Z.pos (mx * my) + 1) 107 m2 e' loc_Exact)
    as [B3 E3]; try lia.
  destruct (shr_fexp prec emax m2 e' loc_Exact) as [mrs'' e''] eqn:S2.
  cbn [fst snd] in B3, E3.
  destruct (shr_m mrs'') as [|p|p]; try lia; try (split; reflexivity).
  replace (Z.leb e'' (emax - prec)) with true; [split; reflexivity|].
  symmetry. apply Z.leb_le. change (emax - prec)%Z with 971%Z. lia.
Qed.


(** *** Comparison as a lexicographic order on three integers *)

Definition r1 (f : spec_float) : Z :=
  match f with
  | S754_zero _ | S754_nan => 0
  | S754_infinity s => if s then -2 else 2
  | S754_finite s _ _ => if s then -1 else 1
  end.

Definition r2 (f : spec_float) : Z :=
  match f with
  | S754_finite s _ e => if s then - e else e
  | _ => 0
  end.

Definition r3 (f : spec_float) : Z :=
  match f with
  | S754_finite s m _ => if s then Z.neg m else Z.pos m
  | _ => 0
  end.

Definition sf_lt (x y : spec_float) : Prop :=
  (r1 x < r1 y
   \/ (r1 x = r1 y /\ (r2 x < r2 y \/ (r2 x = r2 y /\ r3 x < r3 y))))%Z.

Definition sf_eq (x y : spec_float) : Prop :=
  (r1 x = r1 y /\ r2 x = r2 y /\ r3 x = r3 y)%Z.

Lemma SFcompare_rank x y :
  sf_is_nan x = false -> sf_is_nan y = false ->
  match SFcompare x y with
  | Some Lt => sf_lt x y
  | Some Eq => sf_eq x y
  | Some Gt => sf_lt y x
  | None => False
  end.
Proof.
  unfold sf_lt, sf_eq.
  destruct x as [sx|sx| |sx mx ex], y as [sy|sy| |sy my ey];
    intros Hx Hy; try discriminate;
    try (destruct sx; cbn; lia); try (destruct sy; cbn; lia);
    try (cbn; lia); try (destruct sx, sy; cbn; lia).
  unfold SFcompare.
  change (Pos.compare_cont Eq mx my) with (Pos.compare mx my).
  destruct sx, sy; cbn [r1 r2 r3]; try lia;
    destruct (Z.compare_spec ex ey); try lia;
    destruct (Pos.compare_spec mx my); cbn [CompOpp]; lia.
Qed.

Lemma ltb_rank x y :
  is_nan x = false -> is_nan y = false ->
  ((x <? y)%float = true <-> sf_lt (B2SF x) (B2SF y)).
Proof.
  rewrite !is_nan_spec, ltb_spec. intros Hx Hy. unfold SFltb.
  pose proof (SFcompare_rank _ _ Hx Hy) as H.
  pose proof (SFcompare_rank _ _ Hy Hx) as H'.
  unfold sf_lt, sf_eq in *.
  destruct (SFcompare (B2SF x) (B2SF y)) as [[| |]|];
    destruct (SFcompare (B2SF y) (B2SF x)) as [[| |]|];
    split; intros; try discriminate; try reflexivity; try lia; tauto.
Qed.

Lemma eqb_rank x y :
  is_nan x = false -> is_nan y = false ->
  ((x =? y)%float = true <-> sf_eq (B2SF x) (B2SF y)).
Proof.
  rewrite !is_nan_spec, eqb_spec. intros Hx Hy. unfold SFeqb.
  pose proof (SFcompare_rank _ _ Hx Hy) as H.
  unfold sf_lt, sf_eq in *.
  destruct (SFcompare (B2SF x) (B2SF y)) as [[| |]|];
    split; intros; try discriminate; try reflexivity; try lia; tauto.
Qed.

Lemma leb_rank x y :
  is_nan x = false -> is_nan y = false ->
  ((x <=? y)%float = true <-> ~ sf_lt (B2SF y) (B2SF x)).
Proof.
  rewrite !is_nan_spec, leb_spec. intros Hx Hy. unfold SFleb.
  pose proof (SFcompare_rank _ _ Hx Hy) as H.
  unfold sf_lt, sf_eq in *.
  destruct (SFcompare (B2SF x) (B2SF y)) as [[| |]|];
    split; intros; try discriminate; try reflexivity; try lia; tauto.
Qed.

(** A comparison with a NaN is false. *)
Lemma ltb_nan_l x y : is_nan x = true -> (x <? y)%float = false.
Proof.
  rewrite is_nan_spec, ltb_spec. destruct (B2SF x); try discriminate.
  reflexivity.
Qed.

Lemma ltb_nan_r x y : is_nan y = true -> (x <? y)%float = false.
Proof.
  rewrite is_nan_spec, ltb_spec. unfold SFltb.
  destruct (B2SF y); try discriminate. destruct (B2SF x); reflexivity.
Qed.

Lemma leb_not_nan x y :
  (x <=? y)%float = true -> is_nan x = false /\ is_nan y = false.
Proof.
  rewrite !is_nan_spec, leb_spec. unfold SFleb.
  destruct (B2SF x), (B2SF y); try discriminate; auto.
Qed.


(** *** The primitive operations, by class *)

Lemma B2SF_zero : B2SF 0 = S754_zero false.
Proof. reflexivity. Qed.

Lemma B2SF_one : B2SF 1 = sf_one.
Proof. reflexivity. Qed.

Definition sf_nonneg (f : spec_float) : bool :=
  negb (sf_is_nan f) && (sf_is_zero f || negb (sf_sign f)).

Lemma leb_zero_spec x : (0 <=? x)%float = sf_nonneg (B2SF x).
Proof.
  rewrite leb_spec, B2SF_zero. unfold SFleb.
  destruct (B2SF x) as [s|s| |s m e]; try reflexivity; destruct s; reflexivity.
Qed.

Lemma ltb_zero_spec x :
  (x <? 0)%float = negb (sf_is_nan (B2SF x)) && negb (sf_is_zero (B2SF x))
                   && sf_sign (B2SF x).
Proof.
  rewrite ltb_spec, B2SF_zero. unfold SFltb.
  destruct (B2SF x) as [s|s| |s m e]; try reflexivity; destruct s; reflexivity.
Qed.

Lemma zero_ltb_spec x :
  (0 <? x)%float = negb (sf_is_nan (B2SF x)) && negb (sf_is_zero (B2SF x))
                   && negb (sf_sign (B2SF x)).
Proof.
  rewrite ltb_spec, B2SF_zero. unfold SFltb.
  destruct (B2SF x) as [s|s| |s m e]; try reflexivity; destruct s; reflexivity.
Qed.

Lemma opp_involutive x : (- - x = x)%float.
Proof.
  apply Prim2SF_inj. rewrite !opp_spec.
  destruct (B2SF x); simpl; rewrite ?negb_involutive; reflexivity.
Qed.

Lemma abs_opp x : abs (- x) = abs x.
Proof.
  apply Prim2SF_inj. rewrite !abs_spec, opp_spec. destruct (B2SF x); reflexivity.
Qed.

Lemma is_nan_opp x : is_nan (- x) = is_nan x.
Proof. rewrite !is_nan_spec, opp_spec. destruct (B2SF x); reflexivity. Qed.

Lemma is_infinity_opp x : is_infinity (- x) = is_infinity x.
Proof. rewrite !is_infinity_spec, opp_spec. destruct (B2SF x); reflexivity. Qed.

Lemma is_finite_opp x : is_finite (- x) = is_finite x.
Proof. unfold is_finite. rewrite is_nan_opp, is_infinity_opp. reflexivity. Qed.

Lemma is_zero_opp x : (- x =? 0)%float = (x =? 0)%float.
Proof. rewrite !is_zero_spec, opp_spec. destruct (B2SF x); reflexivity. Qed.

Lemma div_opp_l x y : (- x / y = - (x / y))%float.
Proof.
  apply Prim2SF_inj. rewrite opp_spec, !div_spec, opp_spec. apply SFdiv_opp_l.
Qed.

(** [y - x] against [x - y] *)
Lemma sub_antisym x y :
  (y - x = - (x - y))%float \/ ((x - y = 0)%float /\ (y - x = 0)%float).
Proof.
  destruct (SFsub_antisym (B2SF x) (B2SF y)) as [H|[H1 H2]].
  - left. apply Prim2SF_inj. rewrite opp_spec, !sub_spec. exact H.
  - right. split; apply Prim2SF_inj; rewrite sub_spec, B2SF_zero; assumption.
Qed.

Lemma sub_diag x : is_finite x = true -> (x - x = 0)%float.
Proof.
  rewrite is_finite_spec, andb_true_iff, !negb_true_iff. intros [H1 H2].
  apply Prim2SF_inj. rewrite sub_spec, B2SF_zero. apply SFsub_diag; assumption.
Qed.

Lemma is_finite_not_nan x : is_finite x = true -> is_nan x = false.
Proof.
  rewrite is_finite_spec, is_nan_spec. destruct (B2SF x); simpl; congruence.
Qed.

Lemma is_finite_not_inf x : is_finite x = true -> is_infinity x = false.
Proof.
  rewrite is_finite_spec, is_infinity_spec. destruct (B2SF x); simpl; congruence.
Qed.

Lemma is_finite_intro x :
  is_nan x = false -> is_infinity x = false -> is_finite x = true.
Proof. unfold is_finite. intros -> ->. reflexivity. Qed.

(** A product is a NaN only from a NaN or from zero times infinity. *)
Lemma mul_not_nan x y :
  is_nan x = false -> is_nan y = false ->
  (x =? 0)%float && is_infinity y = false ->
  is_infinity x && (y =? 0)%float = false ->
  is_nan (x * y) = false.
Proof.
  rewrite !is_nan_spec, !is_zero_spec, !is_infinity_spec, mul_spec.
  intros. apply SFmul_signed; assumption.
Qed.

Lemma mul_finite_not_nan x y :
  is_finite x = true -> is_finite y = true -> is_nan (x * y) = false.
Proof.
  intros Hx Hy. apply mul_not_nan; auto using is_finite_not_nan.
  - rewrite (is_finite_not_inf y Hy). apply andb_false_r.
  - rewrite (is_finite_not_inf x Hx). reflexivity.
Qed.

Lemma add_not_nan x y :
  is_nan x = false -> is_nan y = false ->
  is_infinity x && is_infinity y = false ->
  is_nan (x + y) = false.
Proof.
  rewrite !is_nan_spec, !is_infinity_spec, add_spec. apply SFadd_not_nan.
Qed.

Lemma sub_not_nan x y :
  is_nan x = false -> is_nan y = false ->
  is_infinity x && is_infinity y = false ->
  is_nan (x - y) = false.
Proof.
  rewrite !is_nan_spec, !is_infinity_spec, sub_spec. apply SFsub_not_nan.
Qed.

(** A quotient by a non-zero finite constant. *)
Lemma div_not_nan x y sy my ey :
  B2SF y = S754_finite sy my ey -> is_nan x = false -> is_nan (x / y) = false.
Proof.
  intros Hy. rewrite !is_nan_spec, div_spec, Hy. apply SFdiv_not_nan.
Qed.

(** A product with a non-zero finite constant. *)
Lemma mul_const_not_nan x y sy my ey :
  B2SF y = S754_finite sy my ey -> is_nan x = false -> is_nan (x * y) = false.
Proof.
  intros Hy Hx. apply mul_not_nan; auto.
  - rewrite is_nan_spec, Hy. reflexivity.
  - rewrite is_infinity_spec, Hy. apply andb_false_r.
  - rewrite is_zero_spec, Hy. apply andb_false_r.
Qed.

(** A positive finite constant times a non-negative value. *)
Lemma mul_pos_nonneg k t mk ek :
  B2SF k = S754_finite false mk ek ->
  (0 <=? t)%float = true -> (0 <=? k * t)%float = true.
Proof.
  intros Hk. rewrite !leb_zero_spec, mul_spec, Hk.
  destruct (B2SF t) as [s|s| |s m e]; try discriminate;
    try (destruct s; try discriminate; reflexivity).
  destruct s; [discriminate|]. intros _.
  unfold SF64mul, SFmul. cbn [xorb].
  match goal with
  | |- context [binary_round_aux _ _ ?s ?m ?e ?l] =>
      destruct (bra_signed s m e l) as [H1 H2]; [lia|]
  end.
  unfold sf_nonneg. rewrite H1, H2. apply orb_true_r.
Qed.

Lemma add_nonneg x y :
  (0 <=? x)%float = true -> (0 <=? y)%float = true ->
  (0 <=? x + y)%float = true.
Proof.
  rewrite !leb_zero_spec, add_spec.
  destruct (B2SF x) as [sx|sx| |sx mx ex], (B2SF y) as [sy|sy| |sy my ey];
    try discriminate;
    try (destruct sx; try discriminate; destruct sy; try discriminate;
         reflexivity);
    try (destruct sx; try discriminate; reflexivity);
    try (destruct sy; try discriminate; reflexivity).
  destruct sx; [discriminate|]. destruct sy; [discriminate|]. intros _ _.
  unfold SF64add, SFadd. cbn [cond_Zopp].
  set (a := fst (shl_align mx ex (Z.min ex ey))).
  set (b := fst (shl_align my ey (Z.min ex ey))).
  change (Z.pos a + Z.pos b)%Z with (Z.pos (a + b)).
  unfold binary_normalize.
  match goal with
  | |- context [binary_round _ _ ?s ?m ?e] =>
      destruct (binary_round_signed s m e) as [H1 H2]
  end.
  unfold sf_nonneg. rewrite H1, H2. apply orb_true_r.
Qed.


(** *** No overflow in a product with a constant below 1 *)








(** *** From the specification back to the primitive type *)

Lemma SFldexp_not_nan f e :
  sf_is_nan f = false -> sf_is_nan (SFldexp prec emax f e) = false.
Proof.
  destruct f as [s|s| |s m x]; intros H; try discriminate; try reflexivity.
  apply binary_round_signed.
Qed.

Lemma SF2Prim_not_nan y : sf_is_nan y = false -> is_nan (SF2Prim y) = false.
Proof.
  destruct y as [s|s| |s m e]; intros H; try discriminate;
    try (destruct s; reflexivity).
  unfold SF2Prim.
  match goal with
  | |- is_nan (if s then - ?f else ?f) = false =>
      assert (Hf : is_nan f = false)
  end.
  { rewrite is_nan_spec, Z_ldexp_spec, of_uint63_spec.
    apply SFldexp_not_nan, binary_normalize_not_nan. }
  destruct s; rewrite ?is_nan_opp; exact Hf.
Qed.

Lemma abs_leb_one_finite x : (abs x <=? 1)%float = true -> is_finite x = true.
Proof.
  rewrite leb_spec, abs_spec, is_finite_spec. unfold SFleb.
  destruct (B2SF x); try discriminate; reflexivity.
Qed.

Lemma abs_not_neg x : (abs x <? 0)%float = false.
Proof.
  rewrite ltb_zero_spec, abs_spec. destruct (B2SF x); reflexivity.
Qed.

Lemma mul_opp_opp x y : (- x * - y = x * y)%float.
Proof.
  rewrite mul_opp_l, (mul_comm x (- y)), mul_opp_l, opp_involutive.
  apply mul_comm.
Qed.

Lemma mul_opp_r x y : (x * - y = - (x * y))%float.
Proof. rewrite (mul_comm x (- y)), mul_opp_l, (mul_comm y x). reflexivity. Qed.

Lemma opp_nan : (- nan = nan)%float.
Proof. reflexivity. Qed.


Lemma mul_unit_finite x y :
  (abs x <=? 1)%float = true -> (abs y <=? 1)%float = true ->
  is_finite (x * y) = true.
Proof.
  rewrite !leb_spec, !abs_spec, B2SF_one, is_finite_spec, mul_spec.
  intros Hx Hy.
  destruct (SFmul_unit_range _ _ (Prim2SF_valid x) (Prim2SF_valid y) Hx Hy)
    as [H1 H2].
  unfold SF64mul. rewrite H1, H2. reflexivity.
Qed.

Lemma sub_zero_r x a :
  is_finite x = true -> (x =? 0)%float = false -> (a =? 0)%float = true ->
  (x - a = x)%float.
Proof.
  rewrite is_finite_spec, !is_zero_spec. intros Fx Zx Za.
  apply Prim2SF_inj. rewrite sub_spec.
  destruct (B2SF x) as [sx|sx| |sx mx ex], (B2SF a) as [sa|sa| |sa ma ea];
    try discriminate; reflexivity.
Qed.


(** The sum and the product of a NaN. *)
Lemma add_nan_l y : (nan + y = nan)%float.
Proof. apply Prim2SF_inj. rewrite add_spec. reflexivity. Qed.

Lemma mul_nan_l y : (nan * y = nan)%float.
Proof. apply Prim2SF_inj. rewrite mul_spec. reflexivity. Qed.

(** A sum or a product that is finite has finite operands. *)
Lemma add_finite_l x y : is_finite (x + y) = true -> is_finite x = true.
Proof.
  rewrite !is_finite_spec, add_spec.
  destruct (B2SF x) as [sx|sx| |sx mx ex], (B2SF y) as [sy|sy| |sy my ey];
    try reflexivity; try discriminate;
    destruct sx, sy; try reflexivity; discriminate.
Qed.

Lemma mul_finite_l x y : is_finite (x * y) = true -> is_finite x = true.
Proof.
  rewrite !is_finite_spec, mul_spec.
  destruct (B2SF x) as [sx|sx| |sx mx ex], (B2SF y) as [sy|sy| |sy my ey];
    try reflexivity; discriminate.
Qed.


Lemma mul_zero_range r :
  is_nan (r * 0) = true \/ (abs (r * 0) <=? 1)%float = true.
Proof.
  rewrite is_nan_spec, leb_spec, abs_spec, mul_spec, B2SF_zero.
  destruct (B2SF r) as [s|s| |s m e]; cbn; auto.
Qed.

Lemma is_nan_abs x : is_nan (abs x) = is_nan x.
Proof. rewrite !is_nan_spec, abs_spec. destruct (B2SF x); reflexivity. Qed.

Lemma positive_sign y : (0 <? y)%float = true -> get_sign y = false.
Proof.
  rewrite zero_ltb_spec, get_sign_spec.
  destruct (B2SF y) as [s|s| |s m e]; try discriminate; destruct s;
    try discriminate; reflexivity.
Qed.


(** A negative value is below every non-negative one, and is not zero. *)
Lemma neg_lt_nonneg r d :
  (r <? 0)%float = true -> (0 <=? d)%float = true ->
  (r =? 0)%float = false /\ (r <? d)%float = true.
Proof.
  rewrite ltb_zero_spec, leb_zero_spec, is_zero_spec, ltb_spec.
  unfold sf_nonneg, SFltb.
  destruct (B2SF r) as [sr|sr| |sr mr er], (B2SF d) as [sd|sd| |sd md ed];
    try discriminate; destruct sr; try discriminate; destruct sd;
    try discriminate; split; reflexivity.
Qed.

Lemma nonneg_not_nan d : (0 <=? d)%float = true -> is_nan d = false.
Proof. intros H. apply (leb_not_nan _ _ H). Qed.

End FloatFacts.

(* ================================================================== *)
(** ** Results that are not zero

    A product with a constant of magnitude at least 1, and a square root,
    vanish only on a zero: there is no underflow in them. *)

Module FloatZero.

Import FloatFacts.
Local Open Scope float_scope.
Local Abbreviation B2SF := Prim2SF.



















End FloatZero.

(* ================================================================== *)
(** ** The [math] wrappers *)

Section MathFacts.

Import FloatFacts.
Variable lm : Libm.
Local Open Scope float_scope.

Definition opp_result (r : result float) : result float :=
  match r with
  | Ok v => Ok (- v)
  | Raise e => Raise e
  end.

Lemma math_1_raises f x e : Math.math_1 f x = Raise e -> e = ValueError.
Proof.
  unfold Math.math_1.
  destruct (is_nan (f x) && negb (is_nan x));
    [|destruct (is_infinity (f x) && is_finite x)]; congruence.
Qed.

Lemma math_1_ok f x r :
  Math.math_1 f x = Ok r ->
  r = f x /\ (is_nan x = false -> is_nan r = false).
Proof.
  unfold Math.math_1.
  destruct (is_nan (f x)) eqn:N, (is_nan x) eqn:X; cbn [andb negb];
    try discriminate;
    destruct (is_infinity (f x) && is_finite x); try discriminate;
    intros H; injection H as <-; split; congruence.
Qed.

Lemma math_1_opp f x :
  (forall y, f (- y) = - f y) ->
  Math.math_1 f (- x) = opp_result (Math.math_1 f x).
Proof.
  intros Hodd. unfold Math.math_1.
  rewrite Hodd, !is_nan_opp, is_infinity_opp, is_finite_opp.
  destruct (is_nan (f x) && negb (is_nan x)); [reflexivity|].
  destruct (is_infinity (f x) && is_finite x); reflexivity.
Qed.

(** The square does not see the sign of its argument. *)
Lemma pow2_opp v : Math.pow2 lm (- v) = Math.pow2 lm v.
Proof.
  unfold Math.pow2. rewrite is_nan_opp, is_infinity_opp, is_zero_opp, abs_opp.
  destruct (is_nan v) eqn:N.
  { rewrite (nan_unique v N). reflexivity. }
  destruct (is_infinity v); [reflexivity|].
  destruct (v =? 0) eqn:Z; [reflexivity|].
  rewrite opp_involutive, !ltb_zero_spec, opp_spec.
  rewrite is_nan_spec in N. rewrite is_zero_spec in Z.
  destruct (Prim2SF v) as [s|s| |s m e]; try discriminate; destruct s; reflexivity.
Qed.

Lemma pow2_finite v p :
  Platform.pow_total lm -> is_finite v = true ->
  Math.pow2 lm v = Ok p -> is_finite p = true.
Proof.
  intros Hp Hv. unfold Math.pow2.
  rewrite (is_finite_not_nan v Hv), (is_finite_not_inf v Hv).
  destruct (v =? 0); [intros H; injection H as <-; reflexivity|].
  set (iv := if v <? 0 then - v else v).
  assert (Hiv : is_finite iv = true).
  { unfold iv. destruct (v <? 0); rewrite ?is_finite_opp; exact Hv. }
  destruct (iv =? 1); [intros H; injection H as <-; reflexivity|].
  destruct (is_infinity (c_pow lm iv 2)) eqn:I; [discriminate|].
  intros H; injection H as <-. apply is_finite_intro; [|exact I].
  apply Hp, Hiv.
Qed.

Lemma sin_unit z s :
  Platform.sin_range lm -> is_nan z = false ->
  Math.sin lm z = Ok s -> (abs s <=? 1) = true.
Proof.
  intros Hr Hz H. apply math_1_ok in H. destruct H as [-> Hn].
  destruct (Hr z) as [C|C]; [|exact C]. rewrite Hn in C by exact Hz. discriminate.
Qed.

Lemma cos_unit z c :
  Platform.cos_range lm -> is_nan z = false ->
  Math.cos lm z = Ok c -> (abs c <=? 1) = true.
Proof.
  intros Hr Hz H. apply math_1_ok in H. destruct H as [-> Hn].
  destruct (Hr z) as [C|C]; [|exact C]. rewrite Hn in C by exact Hz. discriminate.
Qed.

(** A root that is returned: of a zero it is that zero, of anything else
    it carries sign [+]. *)
Lemma sqrt_ok a r :
  is_nan a = false -> Math.sqrt a = Ok r ->
  ((a =? 0) = true /\ r = a)
  \/ ((a =? 0) = false /\ is_nan r = false /\ get_sign r = false).
Proof.
  intros Ha H. apply math_1_ok in H. destruct H as [-> Hn].
  specialize (Hn Ha).
  rewrite is_zero_spec, is_nan_spec, get_sign_spec.
  rewrite is_nan_spec in Hn. rewrite sqrt_spec in *.
  destruct (SFsqrt_class (Prim2SF a)) as [C|[[C1 C2]|[C1 [C2 [C3 C4]]]]].
  - unfold SF64sqrt in Hn. congruence.
  - left. split; [exact C1|]. apply Prim2SF_inj. rewrite sqrt_spec. exact C2.
  - right. unfold SF64sqrt. auto.
Qed.

Lemma nonneg_of_not_neg r :
  is_nan r = false -> (r <? 0) = false -> (0 <=? r) = true.
Proof.
  rewrite is_nan_spec, ltb_zero_spec, leb_zero_spec. unfold sf_nonneg.
  destruct (Prim2SF r) as [s|s| |s m e]; try discriminate; destruct s;
    try discriminate; reflexivity.
Qed.

(** [m_atan2] of a [y] that is a zero or carries sign [+]. *)
Lemma m_atan2_nonneg y x :
  Platform.atan2_sign lm ->
  is_nan y = false -> is_nan x = false ->
  get_sign y = false \/ ((y =? 0) = true /\ get_sign x = false) ->
  is_nan (Math.m_atan2 lm y x) = true \/ (0 <=? Math.m_atan2 lm y x) = true.
Proof.
  intros Hat Hy Hx Hs. unfold Math.m_atan2, Float.copysign.
  rewrite Hy, Hx. cbn [orb].
  destruct (is_infinity y) eqn:Iy.
  { assert (Sy : get_sign y = false).
    { destruct Hs as [S|[Z _]]; [exact S|].
      rewrite is_infinity_spec in Iy. rewrite is_zero_spec in Z.
      destruct (Prim2SF y); discriminate. }
    rewrite Sy. right.
    destruct (is_infinity x); [destruct (negb (get_sign x))|]; reflexivity. }
  destruct (is_infinity x || (y =? 0)) eqn:B.
  { right. destruct Hs as [S|[Z Sx]].
    - rewrite S. destruct (negb (get_sign x)); reflexivity.
    - rewrite Sx. cbn [negb]. destruct (get_sign y); reflexivity. }
  apply orb_false_iff in B. destruct B as [_ Zy].
  destruct Hs as [S|[Z _]]; [|congruence].
  assert (P : (0 <? y) = true).
  { rewrite zero_ltb_spec. rewrite is_nan_spec in Hy. rewrite is_zero_spec in Zy.
    rewrite get_sign_spec in S. rewrite Hy, Zy, S. reflexivity. }
  specialize (Hat y x P).
  destruct (is_nan (c_atan2 lm y x)) eqn:N; [left; reflexivity|].
  right. apply nonneg_of_not_neg; assumption.
Qed.

Lemma atan2_nonneg y x t :
  Platform.atan2_sign lm ->
  is_nan y = false -> is_nan x = false ->
  get_sign y = false \/ ((y =? 0) = true /\ get_sign x = false) ->
  Math.atan2 lm y x = Ok t -> (0 <=? t) = true.
Proof.
  intros Hat Hy Hx Hs. unfold Math.atan2.
  destruct (m_atan2_nonneg y x Hat Hy Hx Hs) as [N|P].
  - rewrite N, Hy, Hx. discriminate.
  - destruct (leb_not_nan _ _ P) as [_ N]. rewrite N.
    destruct (is_infinity (Math.m_atan2 lm y x));
      [destruct (is_finite y && is_finite x); [discriminate|]|];
      intros H; injection H as <-; exact P.
Qed.

End MathFacts.

(* ================================================================== *)
(** ** [haversine] *)

Section HaversineFacts.

Import FloatFacts.
Variable lm : Libm.
Local Open Scope float_scope.

Lemma B2SF_degToRad :
  Prim2SF Math.degToRad = S754_finite false 5030569068109113 (-58).
Proof. reflexivity. Qed.

Lemma B2SF_two : Prim2SF 2 = S754_finite false 4503599627370496 (-51).
Proof. reflexivity. Qed.


Lemma radians_not_nan x : is_nan x = false -> is_nan (Math.radians x) = false.
Proof. apply (mul_const_not_nan _ _ _ _ _ B2SF_degToRad). Qed.

Lemma half_not_nan x : is_nan x = false -> is_nan (x / 2) = false.
Proof. apply (div_not_nan _ _ _ _ _ B2SF_two). Qed.

Lemma radians_opp x : Math.radians (- x) = - Math.radians x.
Proof. apply mul_opp_l. Qed.

(** The squared sine of half an angle given in degrees: the term
    [math.sin(radians(d) / 2) ** 2] of the formula. *)
Definition sin2_half (d : float) : result float :=
  s <- Math.sin lm (Math.radians d / 2) ;; Math.pow2 lm s.

Lemma sin2_half_opp d :
  Platform.sin_odd lm -> sin2_half (- d) = sin2_half d.
Proof.
  intros Hodd. unfold sin2_half, Math.sin.
  rewrite radians_opp, div_opp_l, (math_1_opp _ _ Hodd).
  destruct (Math.math_1 (c_sin lm) (Math.radians d / 2)) as [s|e]; cbn [opp_result bind];
    [apply pow2_opp|reflexivity].
Qed.

Lemma sin2_half_swap x y :
  Platform.sin_odd lm -> sin2_half (y - x) = sin2_half (x - y).
Proof.
  intros Hodd. destruct (sub_antisym x y) as [H|[H1 H2]].
  - rewrite H. apply sin2_half_opp, Hodd.
  - rewrite H1, H2. reflexivity.
Qed.

(** The formula with its two squared sines named. *)
Lemma haversine_unfold lat1 lon1 lat2 lon2 :
  haversine lm lat1 lon1 lat2 lon2 =
    (p1 <- sin2_half (lat2 - lat1) ;;
     c1 <- Math.cos lm (Math.radians lat1) ;;
     c2 <- Math.cos lm (Math.radians lat2) ;;
     p2 <- sin2_half (lon2 - lon1) ;;
     let a := p1 + c1 * c2 * p2 in
     sa <- Math.sqrt a ;;
     sb <- Math.sqrt (1 - a) ;;
     t <- Math.atan2 lm sa sb ;;
     Ok (3958.8 * (2 * t))).
Proof.
  unfold haversine, sin2_half.
  destruct (Math.sin lm (Math.radians (lat2 - lat1) / 2)) as [s1|e]; cbn [bind];
    [|reflexivity].
  destruct (Math.pow2 lm s1) as [p1|e]; cbn [bind]; [|reflexivity].
  destruct (Math.cos lm (Math.radians lat1)) as [c1|e]; cbn [bind]; [|reflexivity].
  destruct (Math.cos lm (Math.radians lat2)) as [c2|e]; cbn [bind]; [|reflexivity].
  destruct (Math.sin lm (Math.radians (lon2 - lon1) / 2)) as [s2|e]; cbn [bind];
    reflexivity.
Qed.

(** Swapping the two points changes nothing, an exception included. *)
Lemma haversine_swap lat1 lon1 lat2 lon2 :
  Platform.sin_odd lm ->
  haversine lm lat1 lon1 lat2 lon2 = haversine lm lat2 lon2 lat1 lon1.
Proof.
  intros Hodd. rewrite !haversine_unfold.
  rewrite (sin2_half_swap lat1 lat2 Hodd), (sin2_half_swap lon1 lon2 Hodd).
  destruct (sin2_half (lat1 - lat2)) as [p1|e]; cbn [bind]; [|reflexivity].
  unfold Math.cos.
  destruct (Math.math_1 (c_cos lm) (Math.radians lat1)) as [c1|e1] eqn:C1,
           (Math.math_1 (c_cos lm) (Math.radians lat2)) as [c2|e2] eqn:C2;
    cbn [bind]; try reflexivity.
  - rewrite (mul_comm c1 c2). reflexivity.
  - apply math_1_raises in C1, C2. congruence.
Qed.

(** Finite inputs, and a distance is returned: it is not negative. *)
Lemma haversine_nonneg lat1 lon1 lat2 lon2 d :
  Platform.ranges lm ->
  is_finite lat1 = true -> is_finite lon1 = true ->
  is_finite lat2 = true -> is_finite lon2 = true ->
  haversine lm lat1 lon1 lat2 lon2 = Ok d -> (0 <=? d) = true.
Proof.
  intros [Hsr [Hcr [Hp Hat]]] F1 G1 F2 G2. rewrite haversine_unfold.
  assert (Hsq : forall x y p, is_finite x = true -> is_finite y = true ->
                  sin2_half (y - x) = Ok p -> is_finite p = true).
  { intros x y p Fx Fy. unfold sin2_half.
    destruct (Math.sin lm (Math.radians (y - x) / 2)) as [s|e] eqn:S;
      cbn [bind]; [|discriminate].
    apply (pow2_finite lm s p Hp).
    apply abs_leb_one_finite.
    apply (sin_unit lm (Math.radians (y - x) / 2) s Hsr); [|exact S].
    apply half_not_nan, radians_not_nan, sub_not_nan;
      auto using is_finite_not_nan.
    rewrite (is_finite_not_inf y Fy). reflexivity. }
  destruct (sin2_half (lat2 - lat1)) as [p1|e] eqn:P1; cbn [bind]; [|discriminate].
  destruct (Math.cos lm (Math.radians lat1)) as [c1|e] eqn:C1; cbn [bind];
    [|discriminate].
  destruct (Math.cos lm (Math.radians lat2)) as [c2|e] eqn:C2; cbn [bind];
    [|discriminate].
  destruct (sin2_half (lon2 - lon1)) as [p2|e] eqn:P2; cbn [bind]; [|discriminate].
  apply Hsq in P1, P2; try assumption.
  apply (cos_unit lm _ _ Hcr) in C1, C2;
    try (apply radians_not_nan, is_finite_not_nan; assumption).
  set (a := p1 + c1 * c2 * p2).
  assert (Na : is_nan a = false).
  { apply add_not_nan; auto using is_finite_not_nan.
    - apply mul_finite_not_nan; [apply mul_unit_finite; assumption|exact P2].
    - rewrite (is_finite_not_inf p1 P1). reflexivity. }
  destruct (Math.sqrt a) as [sa|e] eqn:SA; cbn [bind]; [|discriminate].
  destruct (Math.sqrt (1 - a)) as [sb|e] eqn:SB; cbn [bind]; [|discriminate].
  destruct (Math.atan2 lm sa sb) as [t|e] eqn:T; cbn [bind]; [|discriminate].
  intros H; injection H as <-.
  assert (Nb : is_nan (1 - a) = false).
  { apply sub_not_nan; [reflexivity|exact Na|reflexivity]. }
  assert (Ht : (0 <=? t) = true).
  { destruct (math_1_ok _ _ _ SB) as [Eb Nsb]. specialize (Nsb Nb).
    destruct (sqrt_ok a sa Na SA) as [[Z E]|[Z [N S]]].
    - subst sa. apply (atan2_nonneg lm a sb t Hat Na Nsb); [|exact T].
      right. split; [exact Z|].
      rewrite (sub_zero_r 1 a) in Eb by (reflexivity || exact Z).
      rewrite Eb. reflexivity.
    - apply (atan2_nonneg lm sa sb t Hat N Nsb); [|exact T]. left. exact S. }
  apply (mul_pos_nonneg _ _ 8705493264079258 (-41)); [reflexivity|].
  apply (mul_pos_nonneg _ _ _ _ B2SF_two). exact Ht.
Qed.



End HaversineFacts.

(* ================================================================== *)
(** ** When the distance is zero *)


Section ZeroDistance.

Import FloatFacts FloatZero.
Variable lm : Libm.
Local Open Scope float_scope.













End ZeroDistance.

(* ================================================================== *)
(** ** The sort *)

Module SortFacts.

Import FloatFacts.
Local Open Scope float_scope.

(** A key with no NaN in it. *)
Definition key_ok (k : Sort.key) : Prop :=
  is_nan (fst k) = false /\ is_nan (snd k) = false.

(** Ascending order on the pair: the first component, then the second. *)
Definition key_le (a b : Sort.key) : Prop :=
  (fst a <? fst b) = true
  \/ ((fst a =? fst b) = true /\ (snd a <=? snd b) = true).

(** The order of two keys, on the integers that rank their components. *)
Definition klt (a b : Sort.key) : Prop :=
  sf_lt (Prim2SF (fst a)) (Prim2SF (fst b))
  \/ (sf_eq (Prim2SF (fst a)) (Prim2SF (fst b))
      /\ sf_lt (Prim2SF (snd a)) (Prim2SF (snd b))).

Definition keq (a b : Sort.key) : Prop :=
  sf_eq (Prim2SF (fst a)) (Prim2SF (fst b))
  /\ sf_eq (Prim2SF (snd a)) (Prim2SF (snd b)).

Ltac ranks := unfold klt, keq, sf_lt, sf_eq in *; lia.

Lemma lt_klt a b : key_ok a -> key_ok b -> (Sort.lt a b = true <-> klt a b).
Proof.
  intros [A1 A2] [B1 B2]. unfold Sort.lt.
  pose proof (eqb_rank _ _ A1 B1) as E1. pose proof (ltb_rank _ _ A1 B1) as L1.
  pose proof (eqb_rank _ _ A2 B2) as E2. pose proof (ltb_rank _ _ A2 B2) as L2.
  destruct (fst a =? fst b); cbn [negb].
  - assert (sf_eq (Prim2SF (fst a)) (Prim2SF (fst b))) by (apply E1; reflexivity).
    destruct (snd a =? snd b); cbn [negb].
    + assert (sf_eq (Prim2SF (snd a)) (Prim2SF (snd b)))
        by (apply E2; reflexivity).
      split; [discriminate|]. ranks.
    + assert (~ sf_eq (Prim2SF (snd a)) (Prim2SF (snd b)))
        by (intros C; apply E2 in C; discriminate).
      rewrite L2. ranks.
  - assert (~ sf_eq (Prim2SF (fst a)) (Prim2SF (fst b)))
      by (intros C; apply E1 in C; discriminate).
    rewrite L1. ranks.
Qed.

Lemma eq_keq a b : key_ok a -> key_ok b -> (Sort.eq a b = true <-> keq a b).
Proof.
  intros [A1 A2] [B1 B2]. unfold Sort.eq.
  rewrite andb_true_iff, (eqb_rank _ _ A1 B1), (eqb_rank _ _ A2 B2).
  reflexivity.
Qed.

Lemma le_klt a b : key_ok a -> key_ok b -> (key_le a b <-> ~ klt b a).
Proof.
  intros [A1 A2] [B1 B2]. unfold key_le.
  rewrite (ltb_rank _ _ A1 B1), (eqb_rank _ _ A1 B1), (leb_rank _ _ A2 B2).
  ranks.
Qed.

Lemma lt_false_le a b :
  key_ok a -> key_ok b -> Sort.lt b a = false -> key_le a b.
Proof.
  intros Ha Hb H. apply (le_klt a b Ha Hb). intros C.
  apply (lt_klt b a Hb Ha) in C. congruence.
Qed.

Lemma lt_true_le a b :
  key_ok a -> key_ok b -> Sort.lt a b = true -> key_le a b.
Proof.
  intros Ha Hb H. apply (le_klt a b Ha Hb).
  apply (lt_klt a b Ha Hb) in H. ranks.
Qed.

Lemma key_le_trans a b c :
  key_ok a -> key_ok b -> key_ok c -> key_le a b -> key_le b c -> key_le a c.
Proof.
  intros Ha Hb Hc. rewrite (le_klt a b), (le_klt b c), (le_klt a c) by assumption.
  ranks.
Qed.

Lemma lt_not_eq k x y :
  key_ok k -> key_ok x -> key_ok y ->
  Sort.lt y x = true -> Sort.eq k y = true -> Sort.eq k x = false.
Proof.
  intros Hk Hx Hy L E. apply (lt_klt y x Hy Hx) in L. apply (eq_keq k y Hk Hy) in E.
  apply not_true_is_false. intros C. apply (eq_keq k x Hk Hx) in C. ranks.
Qed.

Section Lists.

Context {A : Type} (keyfn : A -> Sort.key).

Let ok (x : A) : Prop := key_ok (keyfn x).
Let le (x y : A) : Prop := key_le (keyfn x) (keyfn y).

Lemma insert_perm x l : Permutation (Sort.insert keyfn x l) (x :: l).
Proof.
  induction l as [|y l IH]; cbn [Sort.insert]; [reflexivity|].
  destruct (Sort.lt (keyfn y) (keyfn x)); [|reflexivity].
  rewrite IH. apply perm_swap.
Qed.

Lemma sort_perm l : Permutation (Sort.sort keyfn l) l.
Proof.
  induction l as [|x l IH]; cbn [Sort.sort fold_right]; [reflexivity|].
  fold (Sort.sort keyfn l). rewrite insert_perm, IH. reflexivity.
Qed.

Lemma sort_length l : List.length (Sort.sort keyfn l) = List.length l.
Proof. apply Permutation_length, sort_perm. Qed.

Lemma insert_sorted x l :
  ok x -> Forall ok l ->
  StronglySorted le l -> StronglySorted le (Sort.insert keyfn x l).
Proof.
  intros Hx Hl Hs. induction Hs as [|y l Hs IH Hy]; cbn [Sort.insert].
  - constructor; constructor.
  - inversion Hl as [|? ? Oy Ol]; subst.
    destruct (Sort.lt (keyfn y) (keyfn x)) eqn:L.
    + constructor; [apply IH, Ol|].
      eapply Permutation_Forall; [symmetry; apply insert_perm|].
      constructor; [|exact Hy]. apply lt_true_le; assumption.
    + assert (Hxy : le x y) by (apply lt_false_le; assumption).
      constructor; [constructor; assumption|].
      constructor; [exact Hxy|].
      rewrite Forall_forall in *. intros z Hz.
      apply (key_le_trans (keyfn x) (keyfn y) (keyfn z)).
      * exact Hx.
      * exact Oy.
      * apply Ol, Hz.
      * exact Hxy.
      * apply Hy, Hz.
Qed.

(** With no NaN among the keys the result is in ascending order. *)
Lemma sort_sorted l : Forall ok l -> StronglySorted le (Sort.sort keyfn l).
Proof.
  induction l as [|x l IH]; intros H; cbn [Sort.sort fold_right]; [constructor|].
  fold (Sort.sort keyfn l). inversion H; subst.
  apply insert_sorted; auto.
  eapply Permutation_Forall; [symmetry; apply sort_perm|assumption].
Qed.

Lemma insert_stable k x l :
  key_ok k -> ok x -> Forall ok l ->
  filter (fun s => Sort.eq k (keyfn s)) (Sort.insert keyfn x l)
  = filter (fun s => Sort.eq k (keyfn s)) (x :: l).
Proof.
  intros Hk Hx Hl. induction l as [|y l IH]; cbn [Sort.insert]; [reflexivity|].
  inversion Hl as [|? ? Oy Ol]; subst.
  destruct (Sort.lt (keyfn y) (keyfn x)) eqn:L; [|reflexivity].
  cbn [filter] in *. rewrite (IH Ol).
  destruct (Sort.eq k (keyfn y)) eqn:E; [|reflexivity].
  rewrite (lt_not_eq k (keyfn x) (keyfn y) Hk Hx Oy L E). reflexivity.
Qed.

(** The sort is stable: the elements of any one key keep their order. *)
Lemma sort_stable k l :
  key_ok k -> Forall ok l ->
  filter (fun s => Sort.eq k (keyfn s)) (Sort.sort keyfn l)
  = filter (fun s => Sort.eq k (keyfn s)) l.
Proof.
  intros Hk. induction l as [|x l IH]; intros H; cbn [Sort.sort fold_right];
    [reflexivity|].
  fold (Sort.sort keyfn l). inversion H; subst.
  rewrite insert_stable; auto.
  - cbn [filter]. rewrite IH by assumption. reflexivity.
  - eapply Permutation_Forall; [symmetry; apply sort_perm|assumption].
Qed.

End Lists.

End SortFacts.

(* ================================================================== *)
(** ** The concrete platform meets what is asked of one *)

Module PolyFacts.

Import FloatFacts.
Local Open Scope float_scope.

Lemma sin_zero : Platform.sin_zero Poly.libm.
Proof. reflexivity. Qed.

Lemma nan_in_nan_out : Platform.nan_in_nan_out Poly.libm.
Proof. split; reflexivity. Qed.

Lemma sin_odd : Platform.sin_odd Poly.libm.
Proof.
  intros x. cbn [c_sin Poly.libm]. unfold Poly.sin.
  rewrite is_finite_opp. destruct (is_finite x); [|reflexivity].
  cbv zeta. rewrite mul_opp_opp, mul_opp_l, abs_opp.
  match goal with |- context [abs ?r <=? 1] => destruct (abs r <=? 1) end;
    [reflexivity|apply mul_opp_l].
Qed.

Lemma sin_range : Platform.sin_range Poly.libm.
Proof.
  intros x. cbn [c_sin Poly.libm]. unfold Poly.sin.
  destruct (is_finite x); [|left; reflexivity]. cbv zeta.
  match goal with
  | |- context [abs ?r <=? 1] => destruct (abs r <=? 1) eqn:E
  end; [right; exact E|apply mul_zero_range].
Qed.

Lemma cos_range : Platform.cos_range Poly.libm.
Proof.
  intros x. cbn [c_cos Poly.libm]. unfold Poly.cos.
  destruct (is_finite x); [|left; reflexivity]. cbv zeta.
  match goal with
  | |- context [abs ?r <=? 1] => destruct (abs r <=? 1) eqn:E
  end; right; [exact E|reflexivity].
Qed.

Lemma cos_total : Platform.cos_total Poly.libm.
Proof.
  intros x F. cbn [c_cos Poly.libm]. unfold Poly.cos. rewrite F. cbv zeta.
  match goal with
  | |- context [abs ?r <=? 1] => destruct (abs r <=? 1) eqn:E
  end; [|reflexivity].
  apply leb_not_nan in E. destruct E as [E _]. rewrite is_nan_abs in E. exact E.
Qed.

Lemma pow_total : Platform.pow_total Poly.libm.
Proof.
  intros x F. cbn [c_pow Poly.libm]. unfold Poly.pow.
  change (2 =? 2) with true. cbv iota. apply mul_finite_not_nan; exact F.
Qed.

Lemma atan2_sign : Platform.atan2_sign Poly.libm.
Proof.
  intros y x P. cbn [c_atan2 Poly.libm]. unfold Poly.atan2, Float.copysign.
  rewrite (positive_sign y P). apply abs_not_neg.
Qed.

Lemma ranges : Platform.ranges Poly.libm.
Proof.
  repeat split; [apply sin_range|apply cos_range|apply pow_total|apply atan2_sign].
Qed.

End PolyFacts.

(* ================================================================== *)
(** ** A concrete platform whose [atan2] is never zero off the axis

    The library of [Poly] with its [atan2] kept above zero for a positive
    first argument, as every [atan2] in use is on the arguments
    [haversine] passes to it. *)

Module Strict.

Local Open Scope float_scope.

Definition atan2 (y x : float) : float :=
  let r := Poly.atan2 y x in
  if (0 <? y) && negb (0 <? r) then y else r.

Definition libm : Libm :=
  {| c_sin := Poly.sin; c_cos := Poly.cos; c_atan2 := atan2;
     c_pow := Poly.pow |}.

End Strict.

Module StrictFacts.

Import FloatFacts.
Local Open Scope float_scope.






End StrictFacts.

(* ================================================================== *)
(** ** Parsing the query *)

Module StrFacts.

Definition blank (c : N) : Prop := Str.isspace c = true.

Lemma lstrip_nil s : Str.lstrip s = [] <-> Forall blank s.
Proof.
  induction s as [|c s IH]; cbn [Str.lstrip].
  - split; constructor.
  - destruct (Str.isspace c) eqn:E.
    + rewrite IH. split; [constructor; assumption|].
      intros H; inversion H; assumption.
    + split; [discriminate|]. intros H; inversion H; subst.
      unfold blank in *. congruence.
Qed.

Lemma lstrip_blank s : Forall blank (Str.lstrip s) -> Str.lstrip s = [].
Proof.
  induction s as [|c s IH]; cbn [Str.lstrip]; [reflexivity|].
  destruct (Str.isspace c) eqn:E; [exact IH|].
  intros H; inversion H; subst. unfold blank in *. congruence.
Qed.

Lemma rev_nil {A} (l : list A) : rev l = [] <-> l = [].
Proof.
  split; intros H; [|subst; reflexivity].
  apply (f_equal (@rev A)) in H. rewrite rev_involutive in H. exact H.
Qed.

(** A part strips to the empty string exactly when it is all whitespace. *)
Lemma strip_nil s : Str.strip s = [] <-> Forall blank s.
Proof.
  unfold Str.strip, Str.rstrip. split.
  - intros H. apply rev_nil, lstrip_nil in H.
    apply lstrip_nil, lstrip_blank.
    apply Forall_rev in H. rewrite rev_involutive in H. exact H.
  - intros H. apply lstrip_nil in H. rewrite H. reflexivity.
Qed.

Lemma split_cons sep s : exists p ps, Str.split sep s = p :: ps.
Proof.
  induction s as [|c s [p [ps IH]]]; cbn [Str.split]; [eauto|].
  destruct (c =? sep)%N; [eauto|]. rewrite IH. eauto.
Qed.

(** Every part has a property exactly when every character of the string
    other than the separators has it. *)
Lemma split_forall (P : N -> Prop) sep s :
  Forall (Forall P) (Str.split sep s) <-> Forall (fun c => c = sep \/ P c) s.
Proof.
  induction s as [|c s IH]; cbn [Str.split].
  - split; intros _; repeat constructor.
  - destruct (N.eqb_spec c sep) as [E|E].
    + split; intros H; inversion H; subst; constructor; auto; apply IH; auto.
    + destruct (split_cons sep s) as [p [ps S]]. rewrite S in *.
      split; intros H.
      * inversion H as [|? ? Hcp Hps]; subst. inversion Hcp; subst.
        constructor; [auto|]. apply IH. constructor; assumption.
      * inversion H as [|? ? Hc Hs]; subst. apply IH in Hs.
        inversion Hs; subst. destruct Hc as [Hc|Hc]; [contradiction|].
        constructor; [constructor|]; assumption.
Qed.

Lemma truthy_false s : Str.truthy s = false <-> s = [].
Proof. destruct s; cbn; split; congruence. Qed.

End StrFacts.

Section ParseFacts.

(** No item is parsed exactly when the query holds nothing but commas and
    whitespace. *)
Lemma parse_items_nil query :
  parse_items query = []
  <-> Forall (fun c => c = Str.comma \/ Str.isspace c = true) query.
Proof.
  unfold parse_items.
  rewrite <- (StrFacts.split_forall (fun c => Str.isspace c = true)).
  split.
  - intros H. apply map_eq_nil in H.
    induction (Str.split Str.comma query) as [|p ps IH]; [constructor|].
    cbn [filter] in H. destruct (Str.truthy (Str.strip p)) eqn:T; [discriminate|].
    constructor; [|apply IH, H].
    apply StrFacts.strip_nil, StrFacts.truthy_false, T.
  - intros H. induction H as [|p ps Hp Hps IH]; [reflexivity|].
    cbn [filter]. apply StrFacts.strip_nil in Hp. rewrite Hp. exact IH.
Qed.

End ParseFacts.

(* ================================================================== *)
(** ** The loop over the chains *)

Section PipelineFacts.

Import FloatFacts.
Variable lm : Libm.
Variable hash : Str.t -> Z.
Local Open Scope float_scope.

(** An exception of the arithmetic, as opposed to the route's own. *)
Definition numeric (e : exn) : Prop := e = ValueError \/ e = OverflowError.

Lemma pow2_raises v e : Math.pow2 lm v = Raise e -> numeric e.
Proof.
  unfold Math.pow2, numeric.
  repeat match goal with
         | |- context [if ?b then _ else _] => destruct b
         end; intros H; try discriminate; injection H as <-; auto.
Qed.

Lemma atan2_raises y x e : Math.atan2 lm y x = Raise e -> numeric e.
Proof.
  unfold Math.atan2, numeric.
  destruct (is_nan (Math.m_atan2 lm y x));
    [destruct (negb (is_nan y) && negb (is_nan x))
    |destruct (is_infinity (Math.m_atan2 lm y x));
       [destruct (is_finite y && is_finite x)|]];
    intros H; try discriminate; injection H as <-; auto.
Qed.

Lemma haversine_raises lat1 lon1 lat2 lon2 e :
  haversine lm lat1 lon1 lat2 lon2 = Raise e -> numeric e.
Proof.
  unfold haversine, Math.sin, Math.cos, Math.sqrt.
  repeat match goal with
         | |- bind ?r _ = Raise _ -> _ =>
             let E := fresh "E" in
             destruct r eqn:E; cbn [bind];
             [|intros H; injection H as <-;
               first [ apply math_1_raises in E; left; exact E
                     | apply pow2_raises in E; exact E
                     | apply atan2_raises in E; exact E ]]
         end.
  discriminate.
Qed.

Lemma to_int_raises x e : Float.to_int x = Raise e -> numeric e.
Proof.
  unfold Float.to_int, numeric.
  destruct (Prim2SF x); intros H; try discriminate; injection H as <-; auto.
Qed.

Lemma to_int_finite x n : Float.to_int x = Ok n -> is_finite x = true.
Proof.
  unfold Float.to_int. rewrite is_finite_spec.
  destruct (Prim2SF x); intros H; try discriminate; reflexivity.
Qed.

Lemma store_id_raises chain a b e : store_id chain a b = Raise e -> numeric e.
Proof.
  unfold store_id.
  destruct (Float.to_int (a * 1000)) eqn:A; cbn [bind];
    [|intros H; injection H as <-; exact (to_int_raises _ _ A)].
  destruct (Float.to_int (b * 1000)) eqn:B; cbn [bind];
    [discriminate|intros H; injection H as <-; exact (to_int_raises _ _ B)].
Qed.

(** A store gets an id only at finite coordinates. *)
Lemma store_id_finite chain a b sid :
  store_id chain a b = Ok sid -> is_finite a = true /\ is_finite b = true.
Proof.
  unfold store_id.
  destruct (Float.to_int (a * 1000)) eqn:A; cbn [bind]; [|discriminate].
  destruct (Float.to_int (b * 1000)) eqn:B; cbn [bind]; [|discriminate].
  intros _. split; eapply mul_finite_l, to_int_finite; eassumption.
Qed.

(** An id needs the thousandfold of the latitude to be finite. *)
Lemma store_id_scaled chain a b sid :
  store_id chain a b = Ok sid -> is_finite (a * 1000) = true.
Proof.
  unfold store_id.
  destruct (Float.to_int (a * 1000)) eqn:A; cbn [bind]; [|discriminate].
  intros _. eapply to_int_finite, A.
Qed.

Definition entry : Type := (Chain.t * (float * float))%type.

(** Where a request puts the store of an entry. *)
Definition store_lat (payload : SearchRequest.t) (en : entry) : float :=
  SearchRequest.lat payload + fst (snd en).

Definition store_lng (payload : SearchRequest.t) (en : entry) : float :=
  SearchRequest.lng payload + snd (snd en).

(** The distance a request computes for an entry. *)
Definition distance (payload : SearchRequest.t) (en : entry) : result float :=
  haversine lm (SearchRequest.lat payload) (SearchRequest.lng payload)
    (store_lat payload en) (store_lng payload en).

Lemma candidate_eq payload en :
  candidate lm payload en =
    (dist <- distance payload en ;;
     Ok (fst en, store_lat payload en, store_lng payload en, dist)).
Proof. destruct en as [chain [dlat dlng]]. reflexivity. Qed.

(** The record a turn appends for an entry [dist] away, under the id [sid]. *)
Definition store_of (payload : SearchRequest.t) (items : list Str.t)
    (en : entry) (dist : float) (sid : Str.t) : StoreResult.t :=
  {| StoreResult.storeId := sid;
     StoreResult.storeName := Chain.name (fst en);
     StoreResult.distanceMiles := Float.round dist 2;
     StoreResult.lat := Float.round (store_lat payload en) 6;
     StoreResult.lng := Float.round (store_lng payload en) 6;
     StoreResult.items := fst (enrich hash items (fst en));
     StoreResult.totalPrice := Float.round (snd (enrich hash items (fst en))) 2 |}.

(** What one turn that raises nothing has done: computed the distance
    [dist], and appended [new], nothing or one store. *)
Definition turn (payload : SearchRequest.t) (items : list Str.t)
    (en : entry) (dist : float) (new : list StoreResult.t) : Prop :=
  distance payload en = Ok dist
  /\ ((outside_radius (SearchRequest.radiusMiles payload) dist = true
       /\ new = [])
      \/ (outside_radius (SearchRequest.radiusMiles payload) dist = false
          /\ exists sid,
               store_id (fst en) (store_lat payload en) (store_lng payload en)
               = Ok sid
               /\ new = [store_of payload items en dist sid])).

Lemma visit_ok payload items stores en out :
  visit lm hash payload items stores en = Ok out ->
  exists dist new, turn payload items en dist new /\ out = stores ++ new.
Proof.
  unfold visit, turn. rewrite candidate_eq.
  destruct (distance payload en) as [dist|e]; cbn [bind]; [|discriminate].
  destruct (outside_radius (SearchRequest.radiusMiles payload) dist) eqn:O.
  - intros H; injection H as <-. exists dist, [].
    rewrite app_nil_r. auto.
  - unfold store_of. destruct (enrich hash items (fst en)) as [enriched total].
    destruct (store_id (fst en) (store_lat payload en) (store_lng payload en))
      as [sid|e]; cbn [bind]; [|discriminate].
    intros H; injection H as <-. exists dist. eexists. split; [|reflexivity].
    split; [reflexivity|]. right. split; [exact O|]. exists sid. auto.
Qed.

Lemma visit_raises payload items stores en e :
  visit lm hash payload items stores en = Raise e -> numeric e.
Proof.
  unfold visit. rewrite candidate_eq. unfold distance.
  destruct (haversine lm _ _ _ _) as [dist|e'] eqn:D; cbn [bind];
    [|intros H; injection H as <-; exact (haversine_raises _ _ _ _ _ D)].
  destruct (outside_radius (SearchRequest.radiusMiles payload) dist);
    [discriminate|].
  destruct (enrich hash items (fst en)) as [enriched total].
  destruct (store_id _ _ _) as [sid|e'] eqn:S; cbn [bind]; [discriminate|].
  intros H; injection H as <-. exact (store_id_raises _ _ _ _ S).
Qed.

(** The turns of a loop that raises nothing. *)
Inductive turns (payload : SearchRequest.t) (items : list Str.t)
  : list entry -> list float -> list StoreResult.t -> Prop :=
| turns_nil : turns payload items [] [] []
| turns_cons en rest dist dists new news :
    turn payload items en dist new ->
    turns payload items rest dists news ->
    turns payload items (en :: rest) (dist :: dists) (new ++ news).

Lemma visit_all_ok payload items entries : forall stores out,
  visit_all lm hash payload items stores entries = Ok out ->
  exists dists news, turns payload items entries dists news
                     /\ out = stores ++ news.
Proof.
  induction entries as [|en rest IH]; intros stores out; cbn [visit_all].
  - intros H; injection H as <-. exists [], []. rewrite app_nil_r.
    split; [constructor|reflexivity].
  - destruct (visit lm hash payload items stores en) as [stores'|e] eqn:V;
      cbn [bind]; [|discriminate].
    intros H. apply visit_ok in V. destruct V as [dist [new [T ->]]].
    apply IH in H. destruct H as [dists [news [Ts ->]]].
    exists (dist :: dists), (new ++ news). rewrite app_assoc.
    split; [constructor; assumption|reflexivity].
Qed.

Lemma visit_all_raises payload items entries : forall stores e,
  visit_all lm hash payload items stores entries = Raise e -> numeric e.
Proof.
  induction entries as [|en rest IH]; intros stores e; cbn [visit_all];
    [discriminate|].
  destruct (visit lm hash payload items stores en) as [stores'|e'] eqn:V;
    cbn [bind]; [apply IH|].
  intros H; injection H as <-. exact (visit_raises _ _ _ _ _ V).
Qed.

(** The entries the filter lets through, given their distances. *)
Definition kept (payload : SearchRequest.t) (entries : list entry)
    (dists : list float) : list (entry * float) :=
  filter (fun ed => negb (outside_radius (SearchRequest.radiusMiles payload)
                            (snd ed)))
    (combine entries dists).

(** The chain names of an entry, alone and with its distance. *)
Definition entry_name (en : entry) : Str.t := Chain.name (fst en).

Definition kept_name (ed : entry * float) : Str.t := Chain.name (fst (fst ed)).

Lemma turns_distances payload items entries dists news :
  turns payload items entries dists news ->
  Forall2 (fun en d => distance payload en = Ok d) entries dists.
Proof.
  induction 1 as [|en rest dist dists new news [D _] _ IH]; constructor; auto.
Qed.

(** The stores appended are those of the entries kept, in their order. *)
Lemma turns_kept payload items entries dists news :
  turns payload items entries dists news ->
  Forall2 (fun s ed => exists sid,
             store_id (fst (fst ed)) (store_lat payload (fst ed))
               (store_lng payload (fst ed)) = Ok sid
             /\ s = store_of payload items (fst ed) (snd ed) sid)
    news (kept payload entries dists).
Proof.
  unfold kept.
  induction 1 as [|en rest dist dists new news [D [[O ->]|[O [sid [S ->]]]]] _ IH];
    cbn [combine filter snd app]; try rewrite O; cbn [negb].
  - constructor.
  - exact IH.
  - constructor; [|exact IH]. exists sid. split; [exact S|reflexivity].
Qed.

(** What [search_stores] answers when it answers. *)
Lemma search_stores_ok payload resp :
  search_stores lm hash payload = Ok resp ->
  parse_items (SearchRequest.query payload) <> []
  /\ exists dists news,
       turns payload (parse_items (SearchRequest.query payload))
         (combine BASE_CHAINS offsets) dists news
       /\ resp = {| SearchResponse.query := SearchRequest.query payload;
                    SearchResponse.mode := Str.lit "live";
                    SearchResponse.totalStores :=
                      Z.of_nat (List.length (Sort.sort sort_key news));
                    SearchResponse.stores := Sort.sort sort_key news |}.
Proof.
  unfold search_stores.
  destruct (parse_items (SearchRequest.query payload)) as [|i items] eqn:P;
    [discriminate|].
  destruct (visit_all lm hash payload (i :: items) [] (combine BASE_CHAINS offsets))
    as [stores|e] eqn:V; cbn [bind]; [|discriminate].
  intros H; injection H as <-. split; [discriminate|].
  apply visit_all_ok in V. destruct V as [dists [news [T ->]]].
  exists dists, news. split; [exact T|reflexivity].
Qed.

(** What [search_stores] raises when it raises: its own error on a query
    without items, and otherwise an exception of the arithmetic. *)
Lemma search_stores_raises payload e :
  search_stores lm hash payload = Raise e ->
  (parse_items (SearchRequest.query payload) = []
   /\ e = HTTPException 400 "Please provide at least one item in the query.")
  \/ (parse_items (SearchRequest.query payload) <> [] /\ numeric e).
Proof.
  unfold search_stores.
  destruct (parse_items (SearchRequest.query payload)) as [|i items] eqn:P.
  - intros H; injection H as <-. left. auto.
  - destruct (visit_all lm hash payload (i :: items) []
                (combine BASE_CHAINS offsets)) as [stores|e'] eqn:V;
      cbn [bind]; [discriminate|].
    intros H; injection H as <-. right. split; [discriminate|].
    exact (visit_all_raises _ _ _ _ _ V).
Qed.

End PipelineFacts.

(* ================================================================== *)
(** ** Prices and sort keys *)

Section PriceFacts.

Import FloatFacts.
Variable lm : Libm.
Variable hash : Str.t -> Z.
Local Open Scope float_scope.

Lemma round_not_nan x ndigits :
  is_nan x = false -> is_nan (Float.round x ndigits) = false.
Proof.
  intros N. unfold Float.round.
  destruct (Prim2SF x) as [s|s| |s m e] eqn:E; try exact N.
  cbv zeta.
  destruct (Float.nearest_even (Z.pos m * 10 ^ ndigits) e);
    try (destruct s; reflexivity);
    destruct (10 ^ ndigits)%Z; try (destruct s; reflexivity).
  apply SF2Prim_not_nan, SFdiv_not_nan. reflexivity.
Qed.

(** The price as a function of the two integers it depends on: the base
    [k] and the hash residue [h]. *)
Definition price_of (k h : Z) : float :=
  Float.round ((if (1 <? k)%Z then Float.of_int k else 1) * 0.99
               + Float.of_int h / 250) 2.

Lemma price_eq name chain :
  price hash name chain
  = price_of (Z.of_nat (List.length name) mod 7 + 1)%Z
      (hash (name ++ Chain.id chain) mod 100)%Z.
Proof. reflexivity. Qed.

Definition upto (n : nat) : list Z := List.map Z.of_nat (seq 0 n).

Lemma in_upto n z : (0 <= z < Z.of_nat n)%Z -> In z (upto n).
Proof.
  intros H. unfold upto. rewrite <- (Z2Nat.id z) by lia.
  apply in_map, in_seq. lia.
Qed.

(** A property of the base and the residue that holds on all of
    [1..7] x [0..99]. *)
Lemma by_table (P : Z -> Z -> bool) :
  forallb (fun k => forallb (P k) (upto 100)) (upto 8) = true ->
  forall name chain,
    P (Z.of_nat (List.length name) mod 7 + 1)%Z
      (hash (name ++ Chain.id chain) mod 100)%Z = true.
Proof.
  intros T name chain. rewrite forallb_forall in T.
  specialize (T (Z.of_nat (List.length name) mod 7 + 1)%Z).
  rewrite forallb_forall in T. apply T; apply in_upto.
  - pose proof (Z.mod_pos_bound (Z.of_nat (List.length name)) 7). lia.
  - pose proof (Z.mod_pos_bound (hash (name ++ Chain.id chain)) 100). lia.
Qed.

Lemma price_nonneg name chain : (0 <=? price hash name chain) = true.
Proof.
  rewrite price_eq.
  apply (by_table (fun k h => 0 <=? price_of k h)). vm_compute. reflexivity.
Qed.

Lemma enrich_total_nonneg items chain :
  (0 <=? snd (enrich hash items chain)) = true.
Proof.
  unfold enrich.
  assert (G : forall (acc : list Item.t * float),
             (0 <=? snd acc) = true ->
             (0 <=? snd (fold_left
                (fun '(enriched, total) name =>
                   let p := price hash name chain in
                   (enriched ++ [ {| Item.name := name; Item.price := p;
                                     Item.quantity := 1 |} ],
                    total + p)) items acc)) = true).
  { induction items as [|name items IH]; intros [enriched total] H;
      cbn [fold_left]; [exact H|].
    apply IH. cbn [snd] in *. apply add_nonneg; [exact H|apply price_nonneg]. }
  apply G. reflexivity.
Qed.

(** The key of a store whose distance is not a NaN has no NaN. *)
Lemma store_key_ok payload items en dist sid :
  is_nan dist = false ->
  SortFacts.key_ok (sort_key (store_of hash payload items en dist sid)).
Proof.
  intros N. split; cbn [sort_key store_of fst snd StoreResult.totalPrice
                          StoreResult.distanceMiles].
  - apply round_not_nan, nonneg_not_nan, enrich_total_nonneg.
  - apply round_not_nan, N.
Qed.

(** A store is appended only at finite coordinates of the user. *)
Lemma store_id_user_finite payload en sid :
  store_id (fst en) (store_lat payload en) (store_lng payload en) = Ok sid ->
  is_finite (SearchRequest.lat payload) = true
  /\ is_finite (SearchRequest.lng payload) = true
  /\ is_finite (store_lat payload en) = true
  /\ is_finite (store_lng payload en) = true.
Proof.
  intros S. apply store_id_finite in S. destruct S as [A B].
  repeat split; try assumption; eapply add_finite_l; eassumption.
Qed.

(** The distance of a store that was appended is not negative. *)
Lemma turn_distance payload items en dist new :
  Platform.ranges lm ->
  turn lm hash payload items en dist new ->
  new = [] \/ (0 <=? dist) = true.
Proof.
  intros R [D [[_ ->]|[_ [sid [S _]]]]]; [left; reflexivity|right].
  destruct (store_id_user_finite _ _ _ S) as [A [B [C E]]].
  exact (haversine_nonneg lm _ _ _ _ _ R A B C E D).
Qed.

Lemma turns_keys payload items entries dists news :
  Platform.ranges lm ->
  turns lm hash payload items entries dists news ->
  Forall (fun s => SortFacts.key_ok (sort_key s)) news.
Proof.
  intros R. induction 1 as [|en rest dist dists new news T _ IH];
    [constructor|].
  apply Forall_app. split; [|exact IH].
  destruct (turn_distance _ _ _ _ _ R T) as [->|P]; [constructor|].
  destruct T as [_ [[_ ->]|[_ [sid [_ ->]]]]]; constructor; [|constructor].
  apply store_key_ok, nonneg_not_nan, P.
Qed.

(** Under a negative radius no turn appends a store. *)
Lemma turns_negative payload items entries dists news r :
  Platform.ranges lm ->
  SearchRequest.radiusMiles payload = Some r -> (r <? 0) = true ->
  turns lm hash payload items entries dists news -> news = [].
Proof.
  intros R Hr Neg. induction 1 as [|en rest dist dists new news T _ IH];
    [reflexivity|].
  rewrite IH, app_nil_r.
  destruct (turn_distance _ _ _ _ _ R T) as [->|P]; [reflexivity|].
  destruct T as [_ [[_ ->]|[O _]]]; [reflexivity|].
  rewrite Hr in O. unfold outside_radius, Float.truthy in O.
  destruct (neg_lt_nonneg r dist Neg P) as [Z L]. rewrite Z, L in O.
  discriminate.
Qed.

End PriceFacts.

(* ================================================================== *)
(** ** When the loop completes, and where it stops *)

Section Outcomes.

Import FloatFacts.
Variable lm : Libm.
Variable hash : Str.t -> Z.
Local Open Scope float_scope.

(** A turn goes through: the distance of the entry's store is computed,
    and the store is skipped or gets its id. *)
Definition passes (payload : SearchRequest.t)
    (en : Chain.t * (float * float)) : Prop :=
  let lat := SearchRequest.lat payload in
  let lng := SearchRequest.lng payload in
  exists d,
    haversine lm lat lng (lat + fst (snd en)) (lng + snd (snd en)) = Ok d
    /\ (outside_radius (SearchRequest.radiusMiles payload) d = true
        \/ exists sid,
             store_id (fst en) (lat + fst (snd en)) (lng + snd (snd en))
             = Ok sid).

(** A turn raises [e]: in the distance, or, for a store that is not
    skipped, in the conversion of a coordinate for the id. *)
Definition fails (payload : SearchRequest.t)
    (en : Chain.t * (float * float)) (e : exn) : Prop :=
  let lat := SearchRequest.lat payload in
  let lng := SearchRequest.lng payload in
  haversine lm lat lng (lat + fst (snd en)) (lng + snd (snd en)) = Raise e
  \/ exists d,
       haversine lm lat lng (lat + fst (snd en)) (lng + snd (snd en)) = Ok d
       /\ outside_radius (SearchRequest.radiusMiles payload) d = false
       /\ store_id (fst en) (lat + fst (snd en)) (lng + snd (snd en))
          = Raise e.

Lemma visit_passes payload items stores en :
  (exists out, visit lm hash payload items stores en = Ok out)
  <-> passes payload en.
Proof.
  unfold visit, passes. rewrite candidate_eq.
  unfold distance, store_lat, store_lng. cbv zeta.
  destruct (haversine lm _ _ _ _) as [d|e]; cbn [bind].
  - destruct (outside_radius (SearchRequest.radiusMiles payload) d) eqn:O.
    + split; [intros _; exists d; auto|eauto].
    + destruct (enrich hash items (fst en)) as [enriched total].
      destruct (store_id _ _ _) as [sid|e]; cbn [bind].
      * split; [intros _; exists d; eauto|eauto].
      * split; [intros [out H]; discriminate H|].
        intros [d' [D [C|[sid S]]]]; injection D as <-;
          [congruence|discriminate S].
  - split; [intros [out H]; discriminate H|].
    intros [d [D _]]. discriminate D.
Qed.

Lemma visit_fails payload items stores en e :
  visit lm hash payload items stores en = Raise e <-> fails payload en e.
Proof.
  unfold visit, fails. rewrite candidate_eq.
  unfold distance, store_lat, store_lng. cbv zeta.
  destruct (haversine lm _ _ _ _) as [d|e']; cbn [bind].
  - destruct (outside_radius (SearchRequest.radiusMiles payload) d) eqn:O.
    + split; [discriminate|].
      intros [H|[d' [D [C _]]]]; [discriminate H|].
      injection D as <-. congruence.
    + destruct (enrich hash items (fst en)) as [enriched total].
      destruct (store_id _ _ _) as [sid|e']; cbn [bind].
      * split; [discriminate|].
        intros [H|[d' [_ [_ S]]]]; [discriminate H|discriminate S].
      * split.
        -- intros H; injection H as <-. right. exists d. auto.
        -- intros [H|[d' [_ [_ S]]]]; [discriminate H|congruence].
  - split.
    + intros H; injection H as <-. left. reflexivity.
    + intros [H|[d [D _]]]; [congruence|discriminate D].
Qed.

(** The loop completes exactly when every turn goes through. *)
Lemma visit_all_completes payload items entries : forall stores,
  (exists out, visit_all lm hash payload items stores entries = Ok out)
  <-> Forall (passes payload) entries.
Proof.
  induction entries as [|en rest IH]; intros stores; cbn [visit_all].
  - split; [constructor|eauto].
  - split.
    + intros [out H].
      destruct (visit lm hash payload items stores en) as [stores'|e] eqn:V;
        cbn [bind] in H; [|discriminate H].
      constructor; [apply (visit_passes payload items stores en); eauto|].
      apply (IH stores'). eauto.
    + intros F. inversion F as [|? ? P F']; subst.
      apply (visit_passes payload items stores en) in P.
      destruct P as [stores' ->]. cbn [bind]. apply IH, F'.
Qed.

(** The loop raises [e] exactly when some turn raises [e] after all the
    turns before it went through. *)
Lemma visit_all_stops payload items entries e : forall stores,
  visit_all lm hash payload items stores entries = Raise e
  <-> exists before en after,
        entries = before ++ en :: after
        /\ Forall (passes payload) before
        /\ fails payload en e.
Proof.
  induction entries as [|en rest IH]; intros stores; cbn [visit_all].
  - split; [discriminate|].
    intros [before [en [after [E _]]]]. destruct before; discriminate E.
  - destruct (visit lm hash payload items stores en) as [stores'|e'] eqn:V;
      cbn [bind].
    + assert (P : passes payload en)
        by (apply (visit_passes payload items stores en); eauto).
      rewrite IH. split.
      * intros [before [en' [after [-> [F X]]]]].
        exists (en :: before), en', after. split; [reflexivity|].
        split; [constructor; assumption|exact X].
      * intros [before [en' [after [E [F X]]]]].
        destruct before as [|b before]; cbn [app] in E; injection E as <- ->.
        -- apply (visit_fails payload items stores en) in X. congruence.
        -- inversion F; subst. exists before, en', after. auto.
    + split.
      * intros H; injection H as <-. exists [], en, rest.
        split; [reflexivity|]. split; [constructor|].
        apply (visit_fails payload items stores en), V.
      * intros [before [en' [after [E [F X]]]]].
        destruct before as [|b before]; cbn [app] in E; injection E as <- ->.
        -- apply (visit_fails payload items stores en) in X. congruence.
        -- inversion F as [|? ? P _]; subst.
           apply (visit_passes payload items stores en) in P.
           destruct P as [out P]. congruence.
Qed.

(** A loop each of whose turns skips its store leaves the list as it was. *)
Lemma visit_all_skips payload items entries stores :
  Forall (fun en =>
            exists d,
              distance lm payload en = Ok d
              /\ outside_radius (SearchRequest.radiusMiles payload) d = true)
    entries ->
  visit_all lm hash payload items stores entries = Ok stores.
Proof.
  induction 1 as [|en rest [d [D O]] _ IH]; cbn [visit_all]; [reflexivity|].
  unfold visit. rewrite candidate_eq, D. cbn [bind]. rewrite O. cbn [bind].
  exact IH.
Qed.

End Outcomes.

(* ================================================================== *)
(** ** The distance from a finite position *)

Section Near.

Import FloatFacts.
Variable lm : Libm.
Local Open Scope float_scope.

(** From a finite position to one that is not a NaN, a distance that is
    returned is not negative. *)
Lemma haversine_nonneg_from lat1 lon1 lat2 lon2 d :
  Platform.ranges lm ->
  is_finite lat1 = true -> is_finite lon1 = true ->
  is_nan lat2 = false -> is_nan lon2 = false ->
  haversine lm lat1 lon1 lat2 lon2 = Ok d -> (0 <=? d) = true.
Proof.
  intros [Hsr [Hcr [Hp Hat]]] F1 G1 N2 M2. rewrite haversine_unfold.
  assert (Hsq : forall x y p, is_finite x = true -> is_nan y = false ->
                  sin2_half lm (y - x) = Ok p -> is_finite p = true).
  { intros x y p Fx Ny. unfold sin2_half.
    destruct (Math.sin lm (Math.radians (y - x) / 2)) as [s|e] eqn:S;
      cbn [bind]; [|discriminate].
    apply (pow2_finite lm s p Hp).
    apply abs_leb_one_finite.
    apply (sin_unit lm (Math.radians (y - x) / 2) s Hsr); [|exact S].
    apply half_not_nan, radians_not_nan, sub_not_nan;
      auto using is_finite_not_nan.
    rewrite (is_finite_not_inf x Fx). apply andb_false_r. }
  destruct (sin2_half lm (lat2 - lat1)) as [p1|e] eqn:P1; cbn [bind];
    [|discriminate].
  destruct (Math.cos lm (Math.radians lat1)) as [c1|e] eqn:C1; cbn [bind];
    [|discriminate].
  destruct (Math.cos lm (Math.radians lat2)) as [c2|e] eqn:C2; cbn [bind];
    [|discriminate].
  destruct (sin2_half lm (lon2 - lon1)) as [p2|e] eqn:P2; cbn [bind];
    [|discriminate].
  apply Hsq in P1, P2; try assumption.
  apply (cos_unit lm _ _ Hcr) in C1;
    [|apply radians_not_nan, is_finite_not_nan; assumption].
  apply (cos_unit lm _ _ Hcr) in C2; [|apply radians_not_nan; assumption].
  set (a := p1 + c1 * c2 * p2).
  assert (Na : is_nan a = false).
  { apply add_not_nan; auto using is_finite_not_nan.
    - apply mul_finite_not_nan; [apply mul_unit_finite; assumption|exact P2].
    - rewrite (is_finite_not_inf p1 P1). reflexivity. }
  destruct (Math.sqrt a) as [sa|e] eqn:SA; cbn [bind]; [|discriminate].
  destruct (Math.sqrt (1 - a)) as [sb|e] eqn:SB; cbn [bind]; [|discriminate].
  destruct (Math.atan2 lm sa sb) as [t|e] eqn:T; cbn [bind]; [|discriminate].
  intros H; injection H as <-.
  assert (Nb : is_nan (1 - a) = false).
  { apply sub_not_nan; [reflexivity|exact Na|reflexivity]. }
  assert (Ht : (0 <=? t) = true).
  { destruct (math_1_ok _ _ _ SB) as [Eb Nsb]. specialize (Nsb Nb).
    destruct (sqrt_ok a sa Na SA) as [[Z E]|[Z [N S]]].
    - subst sa. apply (atan2_nonneg lm a sb t Hat Na Nsb); [|exact T].
      right. split; [exact Z|].
      rewrite (sub_zero_r 1 a) in Eb by (reflexivity || exact Z).
      rewrite Eb. reflexivity.
    - apply (atan2_nonneg lm sa sb t Hat N Nsb); [|exact T]. left. exact S. }
  apply (mul_pos_nonneg _ _ 8705493264079258 (-41)); [reflexivity|].
  apply (mul_pos_nonneg _ _ _ _ B2SF_two). exact Ht.
Qed.

(** A finite offset from a finite coordinate is not a NaN. *)
Lemma offset_not_nan x dx :
  is_finite x = true -> is_finite dx = true -> is_nan (x + dx) = false.
Proof.
  intros F G. apply add_not_nan; auto using is_finite_not_nan.
  rewrite (is_finite_not_inf x F). reflexivity.
Qed.

End Near.

(* ================================================================== *)
(** ** The response *)

Section Response.

Import FloatFacts.
Variable lm : Libm.
Variable hash : Str.t -> Z.
Local Open Scope float_scope.

Lemma turns_names payload items entries dists news :
  turns lm hash payload items entries dists news ->
  List.map StoreResult.storeName news
  = List.map kept_name (kept payload entries dists).
Proof.
  intros T. apply turns_kept in T.
  induction T as [|s ed news ks [sid [_ ->]] _ IH]; cbn [List.map];
    [reflexivity|].
  rewrite IH. reflexivity.
Qed.

Lemma turns_length payload items entries dists news :
  turns lm hash payload items entries dists news ->
  List.length news = List.length (kept payload entries dists).
Proof.
  intros T. apply turns_names in T.
  apply (f_equal (@List.length _)) in T. rewrite !length_map in T. exact T.
Qed.

Lemma kept_names_incl payload entries : forall dists x,
  In x (List.map kept_name (kept payload entries dists)) ->
  In x (List.map entry_name entries).
Proof.
  unfold kept. induction entries as [|en rest IH]; intros [|d ds] x;
    cbn [combine filter List.map]; try contradiction.
  destruct (negb _); cbn [List.map In]; intros H;
    [destruct H as [H|H]; [left; exact H|right; eapply IH, H]
    |right; eapply IH, H].
Qed.

(** An entry's name is among the names kept exactly when the entry is
    not outside the radius. *)
Lemma kept_names payload entries :
  NoDup (List.map entry_name entries) ->
  forall dists i en d,
    nth_error entries i = Some en -> nth_error dists i = Some d ->
    (In (entry_name en) (List.map kept_name (kept payload entries dists))
     <-> outside_radius (SearchRequest.radiusMiles payload) d = false).
Proof.
  unfold kept. induction entries as [|e0 rest IH]; intros ND [|d0 ds] i en d;
    destruct i as [|i]; cbn [nth_error]; try discriminate.
  - intros E D. injection E as ->. injection D as ->.
    cbn [combine filter snd List.map] in *. inversion ND as [|? ? Hnot _]; subst.
    destruct (outside_radius _ d) eqn:O; cbn [negb List.map In].
    + split; [|discriminate]. intros H. exfalso. apply Hnot.
      eapply kept_names_incl, H.
    + split; auto.
  - intros E D. cbn [combine filter snd List.map] in *.
    inversion ND as [|? ? Hnot ND']; subst.
    rewrite <- (IH ND' ds i en d E D).
    assert (Hne : entry_name e0 <> entry_name en).
    { intros C. apply Hnot. rewrite C. apply in_map.
      eapply nth_error_In, E. }
    destruct (negb _); cbn [List.map In]; [|reflexivity].
    split; [intros [H|H]; [contradiction|exact H]|auto].
Qed.

Lemma chain_names_nodup :
  NoDup (List.map entry_name (combine BASE_CHAINS offsets)).
Proof.
  repeat constructor; cbn; intuition discriminate.
Qed.

(** [outside_radius] is the test the filter is described by. *)
Lemma outside_radius_iff radiusMiles dist :
  outside_radius radiusMiles dist = true
  <-> exists r, radiusMiles = Some r /\ (r =? 0) = false /\ (r <? dist) = true.
Proof.
  unfold outside_radius, Float.truthy. destruct radiusMiles as [r|].
  - rewrite andb_true_iff, negb_true_iff. split.
    + intros [A B]. exists r. auto.
    + intros [r' [E [A B]]]. injection E as <-. auto.
  - split; [discriminate|]. intros [r [E _]]. discriminate.
Qed.

End Response.

(* ================================================================== *)
(** ** The claims about the response: shape, filter, candidates *)

Section ResponseClaims.

Import FloatFacts.
Local Open Scope float_scope.

(** C9.  In every successful search response [totalStores] is the length
    of [stores], [mode] is the string "live", and [query] is the
    request's query, unchanged. *)
Theorem response_shape lm hash payload resp :
  search_stores lm hash payload = Ok resp ->
  SearchResponse.totalStores resp
  = Z.of_nat (List.length (SearchResponse.stores resp))
  /\ SearchResponse.mode resp = Str.lit "live"
  /\ SearchResponse.query resp = SearchRequest.query payload.
Proof.
  intros H. apply search_stores_ok in H.
  destruct H as [_ [dists [news [_ ->]]]]. cbn. auto.
Qed.

Lemma response_shape_witness :
  exists resp,
    search_stores Poly.libm Poly.hash Example.request = Ok resp
    /\ (SearchResponse.totalStores resp
        = Z.of_nat (List.length (SearchResponse.stores resp))
        /\ SearchResponse.mode resp = Str.lit "live"
        /\ SearchResponse.query resp = SearchRequest.query Example.request).
Proof.
  eexists. split.
  - vm_compute. reflexivity.
  - apply (response_shape Poly.libm Poly.hash Example.request).
    vm_compute. reflexivity.
Defined.

Lemma kept_length payload (entries : list entry) : forall dists,
  List.length entries = List.length dists ->
  List.length (kept payload entries dists)
  = List.length
      (filter (fun d => negb (outside_radius
                                (SearchRequest.radiusMiles payload) d)) dists).
Proof.
  unfold kept. induction entries as [|en rest IH]; intros [|d ds] L;
    cbn [combine filter snd List.length] in *; try discriminate;
    [reflexivity|].
  injection L as L. destruct (negb _); cbn [List.length]; rewrite (IH ds L);
    reflexivity.
Qed.

Lemma filter_all {A} (f : A -> bool) l :
  (forall x, f x = true) -> filter f l = l.
Proof.
  intros F. induction l as [|x l IH]; cbn [filter]; [reflexivity|].
  rewrite F, IH. reflexivity.
Qed.

(** C1.  When a search answers, each of the three candidates had its
    distance computed; a candidate is missing from [stores] exactly when
    [radiusMiles] is present, is not zero, and is below the candidate's
    distance; [totalStores] counts the others; and with [radiusMiles]
    absent or zero all three are in. *)
Theorem radius_filter lm hash payload resp :
  search_stores lm hash payload = Ok resp ->
  let radius := SearchRequest.radiusMiles payload in
  let lat := SearchRequest.lat payload in
  let lng := SearchRequest.lng payload in
  let entries := combine BASE_CHAINS offsets in
  let discarded (d : float) :=
    exists r, radius = Some r /\ (r =? 0) = false /\ (r <? d) = true in
  exists dists,
    Forall2 (fun en d =>
               haversine lm lat lng (lat + fst (snd en)) (lng + snd (snd en))
               = Ok d) entries dists
    /\ (forall i en d,
          nth_error entries i = Some en -> nth_error dists i = Some d ->
          (~ In (Chain.name (fst en))
               (List.map StoreResult.storeName (SearchResponse.stores resp))
           <-> discarded d))
    /\ SearchResponse.totalStores resp
       = Z.of_nat (List.length
                     (filter (fun d => negb (outside_radius radius d)) dists))
    /\ (forall d, outside_radius radius d = true <-> discarded d)
    /\ ((radius = None \/ exists r, radius = Some r /\ (r =? 0) = true) ->
        SearchResponse.totalStores resp = 3%Z).
Proof.
  intros H radius lat lng entries discarded.
  subst radius lat lng entries discarded.
  apply search_stores_ok in H. destruct H as [_ [dists [news [T ->]]]].
  pose proof (turns_distances _ _ _ _ _ _ _ T) as D.
  pose proof (Forall2_length D) as L.
  exists dists. cbn [SearchResponse.stores SearchResponse.totalStores].
  split; [exact D|]. split; [|split; [|split]].
  - intros i en d E Ed.
    rewrite <- outside_radius_iff.
    assert (P : In (entry_name en)
                  (List.map StoreResult.storeName (Sort.sort sort_key news))
                <-> outside_radius (SearchRequest.radiusMiles payload) d
                    = false).
    { rewrite <- (kept_names payload _ chain_names_nodup dists i en d E Ed).
      rewrite <- (turns_names _ _ _ _ _ _ _ T).
      split; apply Permutation_in, Permutation_map;
        [|symmetry]; apply SortFacts.sort_perm. }
    change (Chain.name (fst en)) with (entry_name en). rewrite P.
    destruct (outside_radius (SearchRequest.radiusMiles payload) d); split;
      congruence.
  - rewrite SortFacts.sort_length, (turns_length _ _ _ _ _ _ _ T).
    rewrite (kept_length payload _ _ L). reflexivity.
  - intros d. apply outside_radius_iff.
  - intros F. rewrite SortFacts.sort_length, (turns_length _ _ _ _ _ _ _ T).
    rewrite (kept_length payload _ _ L).
    assert (A : forall d, outside_radius (SearchRequest.radiusMiles payload) d
                          = false).
    { intros d. unfold outside_radius, Float.truthy.
      destruct F as [E|[r [E Z]]]; rewrite E; [reflexivity|].
      rewrite Z. reflexivity. }
    rewrite filter_all by (intros d; rewrite A; reflexivity).
    rewrite <- L. reflexivity.
Qed.

Lemma radius_filter_witness :
  exists resp,
    search_stores Poly.libm Poly.hash Example.request_near = Ok resp
    /\ List.map StoreResult.storeName (SearchResponse.stores resp)
       = [Str.lit "Target"; Str.lit "Kroger"]
    /\ exists dists,
         List.length dists = 3%nat
         /\ SearchResponse.totalStores resp
            = Z.of_nat
                (List.length
                   (filter (fun d => negb (outside_radius (Some 0.8) d))
                      dists)).
Proof.
  eexists. split; [vm_compute; reflexivity|]. split; [vm_compute; reflexivity|].
  match goal with
  | |- context [SearchResponse.totalStores ?r] =>
      destruct (radius_filter Poly.libm Poly.hash Example.request_near r)
        as [dists [D [_ [T _]]]]
  end.
  - vm_compute. reflexivity.
  - exists dists. split; [|exact T].
    apply Forall2_length in D. symmetry. exact D.
Defined.

End ResponseClaims.

(* ================================================================== *)
(** ** The claims about the candidates, the validation and the order *)

Section PipelineClaims.

Import FloatFacts.
Local Open Scope float_scope.

(** C8, as the code has it.  The candidates are made turn by turn, each
    before its store is filtered, priced and given an id.  Where the
    search answers, all three have been made, one per chain of
    [BASE_CHAINS] and in its order: each is at the user's latitude and
    longitude plus the offsets paired with its chain, (0.010, 0.012),
    (-0.008, 0.009), (0.006, -0.010), with the haversine distance from
    the user to there, and the radius has no part in any of them. *)
Theorem three_candidates lm hash (payload : SearchRequest.t) resp :
  search_stores lm hash payload = Ok resp ->
  let lat := SearchRequest.lat payload in
  let lng := SearchRequest.lng payload in
  let walmart :=
    {| Chain.id := Str.lit "walmart";
       Chain.name := Str.lit "Walmart Supercenter" |} in
  let target :=
    {| Chain.id := Str.lit "target"; Chain.name := Str.lit "Target" |} in
  let kroger :=
    {| Chain.id := Str.lit "kroger"; Chain.name := Str.lit "Kroger" |} in
  exists d1 d2 d3,
    List.map (candidate lm payload) (combine BASE_CHAINS offsets)
    = [ Ok (walmart, lat + 0.010, lng + 0.012, d1);
        Ok (target, lat + -0.008, lng + 0.009, d2);
        Ok (kroger, lat + 0.006, lng + -0.010, d3) ]
    /\ haversine lm lat lng (lat + 0.010) (lng + 0.012) = Ok d1
    /\ haversine lm lat lng (lat + -0.008) (lng + 0.009) = Ok d2
    /\ haversine lm lat lng (lat + 0.006) (lng + -0.010) = Ok d3
    /\ List.length BASE_CHAINS = 3%nat
    /\ (forall radius,
          List.map
            (candidate lm
               {| SearchRequest.query := SearchRequest.query payload;
                  SearchRequest.lat := lat;
                  SearchRequest.lng := lng;
                  SearchRequest.radiusMiles := radius |})
            (combine BASE_CHAINS offsets)
          = List.map (candidate lm payload) (combine BASE_CHAINS offsets)).
Proof.
  intros H lat lng walmart target kroger.
  subst lat lng walmart target kroger.
  apply search_stores_ok in H. destruct H as [_ [dists [news [T _]]]].
  apply turns_distances in T. cbn [combine BASE_CHAINS offsets] in T.
  inversion T as [|e1 d1 r1 ds1 D1 T1]; subst.
  inversion T1 as [|e2 d2 r2 ds2 D2 T2]; subst.
  inversion T2 as [|e3 d3 r3 ds3 D3 T3]; subst.
  unfold distance, store_lat, store_lng in D1, D2, D3.
  cbn [fst snd] in D1, D2, D3.
  exists d1, d2, d3.
  split; [|split; [exact D1|split; [exact D2|split; [exact D3|]]]].
  - cbn [combine BASE_CHAINS offsets List.map candidate].
    rewrite D1, D2, D3. reflexivity.
  - split; [reflexivity|]. intros radius. reflexivity.
Qed.

Lemma three_candidates_witness :
  exists resp,
    search_stores Poly.libm Poly.hash Example.request = Ok resp
    /\ SearchResponse.totalStores resp = 3%Z
    /\ exists d1 d2 d3,
         haversine Poly.libm 40 (-74) (40 + 0.010) (-74 + 0.012) = Ok d1
         /\ haversine Poly.libm 40 (-74) (40 + -0.008) (-74 + 0.009) = Ok d2
         /\ haversine Poly.libm 40 (-74) (40 + 0.006) (-74 + -0.010) = Ok d3.
Proof.
  eexists. split; [vm_compute; reflexivity|].
  match goal with
  | |- SearchResponse.totalStores ?r = _ /\ _ =>
      destruct (three_candidates Poly.libm Poly.hash Example.request r)
        as [d1 [d2 [d3 [_ [D1 [D2 [D3 _]]]]]]]
  end.
  - vm_compute. reflexivity.
  - split; [reflexivity|]. exists d1, d2, d3. auto.
Defined.

(** C8, as stated, fails: at the finite latitude 1e308, without a radius,
    the first turn raises where the latitude of its store is converted
    for the id, whatever chains come after; no candidate is made for
    Target or Kroger. *)
Lemma three_candidates_counterexample :
  is_finite (SearchRequest.lat Example.request_far) = true
  /\ is_finite (SearchRequest.lng Example.request_far) = true
  /\ visit_all Poly.libm Poly.hash Example.request_far [Str.lit "eggs"] []
       (combine BASE_CHAINS offsets)
     = Raise OverflowError
  /\ (forall lm hash items stores rest,
        exists e,
          visit lm hash Example.request_far items stores
            (Example.walmart, (0.010, 0.012)) = Raise e
          /\ visit_all lm hash Example.request_far items stores
               ((Example.walmart, (0.010, 0.012)) :: rest) = Raise e).
Proof.
  split; [reflexivity|]. split; [reflexivity|].
  split; [vm_compute; reflexivity|].
  intros lm hash items stores rest. cbn [visit_all].
  destruct (visit lm hash Example.request_far items stores
              (Example.walmart, (0.010, 0.012))) as [out|e] eqn:V.
  - exfalso. apply visit_ok in V. destruct V as [dist [new [Tn _]]].
    destruct Tn as [_ [[O _]|[_ [sid [Sid _]]]]]; [discriminate O|].
    apply store_id_scaled in Sid. vm_compute in Sid. discriminate Sid.
  - exists e. split; reflexivity.
Qed.

(** C2, as the code has it.  The search fails with the 400 error exactly
    when the query parses to no item, which is exactly when the query
    holds nothing but commas and whitespace; that failure comes before
    any store is computed, whatever the platform.  On a query with an
    item the search answers exactly when every turn of the loop goes
    through: the distance of each candidate is computed and each
    candidate that is not skipped gets its id.  Otherwise it raises what
    the first turn that does not go through raises, in its distance or in
    the conversion of a coordinate to an integer: a [ValueError] or an
    [OverflowError]. *)
Theorem validation_error lm hash (payload : SearchRequest.t) :
  let query := SearchRequest.query payload in
  let failure :=
    HTTPException 400 "Please provide at least one item in the query." in
  let entries := combine BASE_CHAINS offsets in
  (search_stores lm hash payload = Raise failure <-> parse_items query = [])
  /\ (parse_items query = []
      <-> Forall (fun c => c = Str.comma \/ Str.isspace c = true) query)
  /\ (parse_items query = [] ->
      forall lm' hash', search_stores lm' hash' payload = Raise failure)
  /\ (parse_items query <> [] ->
      ((exists resp, search_stores lm hash payload = Ok resp)
       <-> Forall (passes lm payload) entries)
      /\ (forall e,
            search_stores lm hash payload = Raise e
            <-> exists before en after,
                  entries = before ++ en :: after
                  /\ Forall (passes lm payload) before
                  /\ fails lm payload en e)
      /\ (forall e,
            search_stores lm hash payload = Raise e ->
            e = ValueError \/ e = OverflowError)).
Proof.
  intros query failure entries. subst query failure entries.
  assert (N : parse_items (SearchRequest.query payload) = [] ->
              forall lm' hash',
                search_stores lm' hash' payload
                = Raise (HTTPException 400
                           "Please provide at least one item in the query.")).
  { intros P lm' hash'. unfold search_stores. rewrite P. reflexivity. }
  split; [|split; [|split; [|]]].
  - split; [|intros P; apply N, P].
    intros H. apply search_stores_raises in H.
    destruct H as [[P _]|[_ [C|C]]]; [exact P|discriminate C|discriminate C].
  - apply parse_items_nil.
  - exact N.
  - intros P. split; [|split].
    + rewrite <- (visit_all_completes lm hash payload
                   (parse_items (SearchRequest.query payload)) _ []).
      unfold search_stores.
      destruct (parse_items (SearchRequest.query payload)) as [|i items];
        [contradiction|].
      destruct (visit_all lm hash payload (i :: items) []
                  (combine BASE_CHAINS offsets)) as [stores|e];
        cbn [bind]; split; eauto; intros [x H]; discriminate H.
    + intros e.
      rewrite <- (visit_all_stops lm hash payload
                   (parse_items (SearchRequest.query payload)) _ e []).
      unfold search_stores.
      destruct (parse_items (SearchRequest.query payload)) as [|i items];
        [contradiction|].
      destruct (visit_all lm hash payload (i :: items) []
                  (combine BASE_CHAINS offsets)) as [stores|e'];
        cbn [bind]; split; intros H; try discriminate H;
        injection H as <-; reflexivity.
    + intros e H. apply search_stores_raises in H.
      destruct H as [[P' _]|[_ C]]; [contradiction|exact C].
Qed.

(** C2, as stated, fails: a query with an item, at a finite latitude
    whose thousandfold overflows, is answered by an exception of the
    arithmetic on every platform, and by [OverflowError] on the concrete
    one. *)
Lemma validation_error_counterexample :
  parse_items (SearchRequest.query Example.request_far) = [Str.lit "eggs"]
  /\ is_finite (SearchRequest.lat Example.request_far) = true
  /\ is_finite (SearchRequest.lng Example.request_far) = true
  /\ search_stores Poly.libm Poly.hash Example.request_far
     = Raise OverflowError
  /\ (forall lm hash,
        exists e, search_stores lm hash Example.request_far = Raise e
                  /\ numeric e).
Proof.
  split; [reflexivity|]. split; [reflexivity|]. split; [reflexivity|].
  split; [vm_compute; reflexivity|].
  intros lm hash.
  destruct (search_stores lm hash Example.request_far) as [resp|e] eqn:S.
  - exfalso. apply search_stores_ok in S.
    destruct S as [_ [dists [news [T _]]]].
    inversion T as [|en rest dist dists' new news' Tn _]; subst.
    destruct Tn as [_ [[O _]|[_ [sid [Sid _]]]]]; [discriminate O|].
    apply store_id_scaled in Sid. vm_compute in Sid. discriminate Sid.
  - exists e. split; [reflexivity|].
    apply search_stores_raises in S.
    destruct S as [[P _]|[_ C]]; [vm_compute in P; discriminate P|exact C].
Qed.

(** [l] with some elements left out. *)
Inductive subseq {A : Type} : list A -> list A -> Prop :=
| subseq_nil : subseq [] []
| subseq_skip x l l' : subseq l l' -> subseq l (x :: l')
| subseq_take x l l' : subseq l l' -> subseq (x :: l) (x :: l').

Lemma kept_subseq payload (entries : list entry) : forall dists,
  subseq (List.map kept_name (kept payload entries dists))
    (List.map entry_name entries).
Proof.
  unfold kept. induction entries as [|en rest IH]; intros dists;
    cbn [combine filter List.map]; [constructor|].
  destruct dists as [|d ds]; cbn [combine filter List.map].
  - constructor.
    specialize (IH []). destruct rest; exact IH.
  - cbn [snd]. destruct (negb _); cbn [List.map];
      [apply subseq_take|apply subseq_skip]; apply IH.
Qed.

(** C3.  On a platform whose [sin] and [cos] stay within [-1, 1], a
    search that answers gives the stores in ascending order of
    [(totalPrice, distanceMiles)]: of two stores the one in front has the
    lower [totalPrice], or the same [totalPrice] and a [distanceMiles]
    that is not higher.  No key holds a NaN.  The stores are those the
    loop appended, which it did in the order of the chains (Walmart
    Supercenter, Target, Kroger); and the stores of any one
    [totalPrice] and [distanceMiles] stand as they were appended. *)
Theorem stores_sorted lm hash payload resp :
  Platform.ranges lm ->
  search_stores lm hash payload = Ok resp ->
  let stores := SearchResponse.stores resp in
  let before (a b : StoreResult.t) :=
    (StoreResult.totalPrice a <? StoreResult.totalPrice b) = true
    \/ ((StoreResult.totalPrice a =? StoreResult.totalPrice b) = true
        /\ (StoreResult.distanceMiles a <=? StoreResult.distanceMiles b)
           = true) in
  let same (p d : float) (s : StoreResult.t) :=
    (p =? StoreResult.totalPrice s) && (d =? StoreResult.distanceMiles s) in
  StronglySorted before stores
  /\ Forall (fun s => is_nan (StoreResult.totalPrice s) = false
                      /\ is_nan (StoreResult.distanceMiles s) = false) stores
  /\ exists appended,
       Permutation stores appended
       /\ subseq (List.map StoreResult.storeName appended)
            (List.map Chain.name BASE_CHAINS)
       /\ forall p d, is_nan p = false -> is_nan d = false ->
            filter (same p d) stores = filter (same p d) appended.
Proof.
  intros R H stores before same. subst stores before same.
  apply search_stores_ok in H.
  destruct H as [_ [dists [news [T ->]]]]. cbn [SearchResponse.stores].
  pose proof (turns_keys _ _ _ _ _ _ _ R T) as K.
  split; [exact (SortFacts.sort_sorted sort_key news K)|]. split.
  - eapply Permutation_Forall; [symmetry; apply SortFacts.sort_perm|exact K].
  - exists news. split; [apply SortFacts.sort_perm|]. split.
    + rewrite (turns_names _ _ _ _ _ _ _ T).
      apply (kept_subseq payload (combine BASE_CHAINS offsets) dists).
    + intros p d Np Nd.
      exact (SortFacts.sort_stable sort_key (p, d) news (conj Np Nd) K).
Qed.

Lemma stores_sorted_witness :
  exists resp,
    search_stores Poly.libm Poly.hash Example.request = Ok resp
    /\ List.map StoreResult.totalPrice (SearchResponse.stores resp)
       = [10.17; 10.24; 10.36]
    /\ List.map StoreResult.storeName (SearchResponse.stores resp)
       = [Str.lit "Target"; Str.lit "Walmart Supercenter"; Str.lit "Kroger"]
    /\ StronglySorted
         (fun a b =>
            (StoreResult.totalPrice a <? StoreResult.totalPrice b) = true
            \/ ((StoreResult.totalPrice a =? StoreResult.totalPrice b) = true
                /\ (StoreResult.distanceMiles a
                    <=? StoreResult.distanceMiles b) = true))
         (SearchResponse.stores resp).
Proof.
  eexists. split; [vm_compute; reflexivity|]. split; [reflexivity|].
  split; [reflexivity|].
  match goal with
  | |- StronglySorted _ (SearchResponse.stores ?r) =>
      apply (stores_sorted Poly.libm Poly.hash Example.request r
               PolyFacts.ranges)
  end.
  vm_compute. reflexivity.
Defined.

End PipelineClaims.

(* ================================================================== *)
(** ** NaN coordinates *)

Section NanFacts.

Import FloatFacts.
Variable lm : Libm.
Variable hash : Str.t -> Z.
Hypothesis Hnan : Platform.nan_in_nan_out lm.
Local Open Scope float_scope.

Lemma sin_nan : Math.sin lm nan = Ok nan.
Proof.
  destruct Hnan as [S _]. unfold Math.sin, Math.math_1. rewrite S. reflexivity.
Qed.

Lemma cos_nan : Math.cos lm nan = Ok nan.
Proof.
  destruct Hnan as [_ C]. unfold Math.cos, Math.math_1. rewrite C. reflexivity.
Qed.

(** From a NaN to a NaN the distance is a NaN, and no exception. *)
Lemma haversine_nan : haversine lm nan nan nan nan = Ok nan.
Proof.
  unfold haversine. cbv zeta.
  change (Math.radians (nan - nan) / 2) with nan.
  change (Math.radians nan) with nan.
  rewrite sin_nan, cos_nan. cbn [bind].
  change (Math.pow2 lm nan) with (@Ok float nan). cbn [bind].
  reflexivity.
Qed.

(** A NaN is outside no radius. *)
Lemma outside_radius_nan radiusMiles : outside_radius radiusMiles nan = false.
Proof.
  destruct radiusMiles as [r|]; [|reflexivity]. unfold outside_radius.
  rewrite (ltb_nan_r r nan eq_refl). apply andb_false_r.
Qed.

(** At NaN coordinates a turn ends in the conversion of the latitude to
    an integer. *)
Lemma visit_nan payload items stores en :
  is_nan (SearchRequest.lat payload) = true ->
  is_nan (SearchRequest.lng payload) = true ->
  visit lm hash payload items stores en = Raise ValueError.
Proof.
  intros A B. apply nan_unique in A, B. unfold visit. rewrite candidate_eq.
  unfold distance, store_lat, store_lng. rewrite A, B, !add_nan_l, haversine_nan.
  cbn [bind]. rewrite outside_radius_nan.
  destruct (enrich hash items (fst en)) as [enriched total].
  unfold store_id. rewrite mul_nan_l. reflexivity.
Qed.

Lemma search_stores_nan payload :
  parse_items (SearchRequest.query payload) <> [] ->
  is_nan (SearchRequest.lat payload) = true ->
  is_nan (SearchRequest.lng payload) = true ->
  search_stores lm hash payload = Raise ValueError.
Proof.
  intros P A B. unfold search_stores.
  destruct (parse_items (SearchRequest.query payload)) as [|i items];
    [contradiction|].
  cbn [combine BASE_CHAINS offsets visit_all].
  rewrite (visit_nan payload (i :: items) [] _ A B). reflexivity.
Qed.

End NanFacts.

(* ================================================================== *)
(** ** The claims about the distance, the prices and a negative radius *)

Section NumericClaims.

Import FloatFacts.
Local Open Scope float_scope.

(** C7.  On a platform whose [sin] is odd the distance is symmetric, and
    exactly so: from [q] to [p] the function returns the very float, or
    raises the very exception, that it does from [p] to [q]. *)
Theorem haversine_symmetric lm lat1 lon1 lat2 lon2 :
  Platform.sin_odd lm ->
  haversine lm lat1 lon1 lat2 lon2 = haversine lm lat2 lon2 lat1 lon1.
Proof. apply haversine_swap. Qed.

Lemma haversine_symmetric_witness :
  exists d,
    haversine Poly.libm 40 (-74) 40.01 (-73.988) = Ok d
    /\ haversine Poly.libm 40.01 (-73.988) 40 (-74) = Ok d
    /\ (0 <? d) = true.
Proof.
  eexists. split; [vm_compute; reflexivity|]. split; [|reflexivity].
  rewrite (haversine_symmetric Poly.libm 40.01 (-73.988) 40 (-74)
             PolyFacts.sin_odd).
  vm_compute. reflexivity.
Defined.




(** C5, as the code has it.  The price of an item at a chain is
    [round(base * 0.99 + jitter, 2)]; the base is the float of an integer
    from 1 to 7, namely [len(name) % 7 + 1]; the jitter is a residue from
    0 to 99 over 250.0, and lies in the closed interval from 0 to 0.396. *)
Theorem price_formula hash name chain :
  let k := (Z.of_nat (List.length name) mod 7 + 1)%Z in
  let h := (hash (name ++ Chain.id chain) mod 100)%Z in
  price hash name chain
  = Float.round (base name * 0.99 + jitter hash name chain) 2
  /\ (1 <= k <= 7)%Z
  /\ base name = Float.of_int k
  /\ (1 <=? base name) = true /\ (base name <=? 7) = true
  /\ (0 <= h <= 99)%Z
  /\ jitter hash name chain = Float.of_int h / 250
  /\ (0 <=? jitter hash name chain) = true
  /\ (jitter hash name chain <=? 0.396) = true.
Proof.
  intros k h.
  assert (Hk : (1 <= k <= 7)%Z).
  { subst k. pose proof (Z.mod_pos_bound (Z.of_nat (List.length name)) 7).
    lia. }
  assert (Hh : (0 <= h <= 99)%Z).
  { subst h. pose proof (Z.mod_pos_bound (hash (name ++ Chain.id chain)) 100).
    lia. }
  assert (B : base name = Float.of_int k).
  { unfold base. fold k. cbv zeta.
    assert (C : (k = 1 \/ k = 2 \/ k = 3 \/ k = 4 \/ k = 5 \/ k = 6
                 \/ k = 7)%Z) by lia.
    clearbody k. clear h Hh.
    repeat (destruct C as [C|C]; [subst k; reflexivity|]).
    subst k. reflexivity. }
  pose proof (by_table hash
    (fun k h =>
       let b := if (1 <? k)%Z then Float.of_int k else 1 in
       let j := Float.of_int h / 250 in
       (1 <=? b) && (b <=? 7) && (0 <=? j) && (j <=? 0.396))
    eq_refl name chain) as T.
  cbv zeta in T. rewrite !andb_true_iff in T.
  destruct T as [[[T1 T2] T3] T4].
  repeat split; try assumption; try apply Hk; try apply Hh.
Qed.

(** C5, as stated, fails: in a process where the hash of the key has the
    residue 99 the jitter is 0.396 itself, not below it. *)
Lemma price_formula_counterexample :
  (99 mod 100 = 99)%Z
  /\ jitter (fun _ => 99%Z) (Str.lit "eggs") Example.walmart = 0.396
  /\ (jitter (fun _ => 99%Z) (Str.lit "eggs") Example.walmart <? 0.396)
     = false.
Proof. repeat split. Qed.

(** C4, on the code.  The price is computed from [hash], which the
    interpreter keys anew in each process: two processes whose hashes of
    the key "eggswalmart" have the residues 0 and 50 price the eggs at
    Walmart at 4.95 and at 5.15.  Within one process, and across those
    that agree on the residue, the price is the same. *)
Theorem price_follows_hash :
  price (fun _ => 0%Z) (Str.lit "eggs") Example.walmart = 4.95
  /\ price (fun _ => 50%Z) (Str.lit "eggs") Example.walmart = 5.15
  /\ price (fun _ => 0%Z) (Str.lit "eggs") Example.walmart
     <> price (fun _ => 50%Z) (Str.lit "eggs") Example.walmart
  /\ (forall hash1 hash2 name chain,
        (hash1 (name ++ Chain.id chain) mod 100
         = hash2 (name ++ Chain.id chain) mod 100)%Z ->
        price hash1 name chain = price hash2 name chain).
Proof.
  split; [reflexivity|]. split; [reflexivity|]. split.
  - intros E. apply (f_equal (fun x => x <? 5)) in E. vm_compute in E.
    discriminate E.
  - intros hash1 hash2 name chain E. rewrite !price_eq, E. reflexivity.
Qed.

(** C10.  Under a radius below zero, with an item in the query, every
    candidate whose distance is computed and is not negative is skipped,
    and the search answers with no store: [stores] is empty and
    [totalStores] is 0.  On a platform whose [sin] and [cos] stay within
    [-1, 1], at finite coordinates a distance that is computed is not
    negative, so there the search answers so as soon as the three
    distances are computed; and whatever such a platform answers under a
    radius below zero has no store. *)
Theorem negative_radius lm hash payload r :
  parse_items (SearchRequest.query payload) <> [] ->
  SearchRequest.radiusMiles payload = Some r -> (r <? 0) = true ->
  let lat := SearchRequest.lat payload in
  let lng := SearchRequest.lng payload in
  let entries := combine BASE_CHAINS offsets in
  let distance_of (en : Chain.t * (float * float)) :=
    haversine lm lat lng (lat + fst (snd en)) (lng + snd (snd en)) in
  let empty :=
    {| SearchResponse.query := SearchRequest.query payload;
       SearchResponse.mode := Str.lit "live";
       SearchResponse.totalStores := 0;
       SearchResponse.stores := [] |} in
  (forall d, (0 <=? d) = true -> outside_radius (Some r) d = true)
  /\ (Forall (fun en => exists d, distance_of en = Ok d
                                  /\ (0 <=? d) = true) entries ->
      search_stores lm hash payload = Ok empty)
  /\ (Platform.ranges lm ->
      is_finite lat = true -> is_finite lng = true ->
      Forall (fun en => exists d, distance_of en = Ok d) entries ->
      search_stores lm hash payload = Ok empty
      /\ Forall (fun en => exists d, distance_of en = Ok d
                                     /\ (0 <=? d) = true
                                     /\ (r <? d) = true) entries)
  /\ (Platform.ranges lm ->
      forall resp,
        search_stores lm hash payload = Ok resp ->
        SearchResponse.stores resp = []
        /\ SearchResponse.totalStores resp = 0%Z).
Proof.
  intros P Hr Neg lat lng entries distance_of empty.
  subst lat lng entries distance_of empty.
  assert (O : forall d, (0 <=? d) = true -> outside_radius (Some r) d = true).
  { intros d Pd. unfold outside_radius, Float.truthy.
    destruct (neg_lt_nonneg r d Neg Pd) as [Z L]. rewrite Z, L. reflexivity. }
  assert (A : Forall (fun en : Chain.t * (float * float) =>
                        exists d,
                          haversine lm (SearchRequest.lat payload)
                            (SearchRequest.lng payload)
                            (SearchRequest.lat payload + fst (snd en))
                            (SearchRequest.lng payload + snd (snd en)) = Ok d
                          /\ (0 <=? d) = true)
                (combine BASE_CHAINS offsets) ->
              search_stores lm hash payload
              = Ok {| SearchResponse.query := SearchRequest.query payload;
                      SearchResponse.mode := Str.lit "live";
                      SearchResponse.totalStores := 0;
                      SearchResponse.stores := [] |}).
  { intros F. unfold search_stores.
    destruct (parse_items (SearchRequest.query payload)) as [|i items];
      [contradiction|].
    rewrite (visit_all_skips lm hash payload (i :: items)
               (combine BASE_CHAINS offsets) []); [reflexivity|].
    eapply Forall_impl; [|exact F]. intros en [d [D Pd]].
    exists d. split; [exact D|]. rewrite Hr. apply O, Pd. }
  split; [exact O|]. split; [exact A|]. split.
  - intros R F G C.
    assert (B : Forall (fun en : Chain.t * (float * float) =>
                          exists d,
                            haversine lm (SearchRequest.lat payload)
                              (SearchRequest.lng payload)
                              (SearchRequest.lat payload + fst (snd en))
                              (SearchRequest.lng payload + snd (snd en))
                            = Ok d
                            /\ (0 <=? d) = true)
                  (combine BASE_CHAINS offsets)).
    { assert (Fin : Forall (fun en : Chain.t * (float * float) =>
                              is_finite (fst (snd en)) = true
                              /\ is_finite (snd (snd en)) = true)
                      (combine BASE_CHAINS offsets))
        by (repeat constructor).
      rewrite Forall_forall in C, Fin. apply Forall_forall. intros en I.
      destruct (C en I) as [d D]. destruct (Fin en I) as [F' G'].
      exists d. split; [exact D|].
      refine (haversine_nonneg_from lm _ _ _ _ d R F G _ _ D);
        apply offset_not_nan; assumption. }
    split; [apply A, B|].
    eapply Forall_impl; [|exact B]. intros en [d [D Pd]]. exists d.
    split; [exact D|]. split; [exact Pd|].
    apply (neg_lt_nonneg r d Neg Pd).
  - intros R resp H. apply search_stores_ok in H.
    destruct H as [_ [dists [news [T ->]]]].
    rewrite (turns_negative _ _ _ _ _ _ _ _ R Hr Neg T). split; reflexivity.
Qed.

Lemma negative_radius_witness :
  search_stores Poly.libm Poly.hash Example.request_negative
  = Ok {| SearchResponse.query := Str.lit "eggs, milk";
          SearchResponse.mode := Str.lit "live";
          SearchResponse.totalStores := 0;
          SearchResponse.stores := [] |}
  /\ Forall
       (fun en : Chain.t * (float * float) =>
          exists d,
            haversine Poly.libm 40 (-74) (40 + fst (snd en))
              (-74 + snd (snd en)) = Ok d
            /\ (0 <=? d) = true /\ (-1 <? d) = true)
       (combine BASE_CHAINS offsets).
Proof.
  apply (negative_radius Poly.libm Poly.hash Example.request_negative (-1)
           ltac:(discriminate) eq_refl eq_refl);
    [exact PolyFacts.ranges|reflexivity|reflexivity|].
  repeat constructor; eexists; vm_compute; reflexivity.
Defined.

End NumericClaims.

(* ================================================================== *)
(** ** More facts about binary64 arithmetic *)

Module FloatMore.

Import FloatFacts.
Local Open Scope float_scope.

Lemma add_nan_r x : x + nan = nan.
Proof.
  apply Prim2SF_inj. rewrite add_spec.
  change (Prim2SF nan) with S754_nan. destruct (Prim2SF x); reflexivity.
Qed.

Lemma mul_nan_r x : x * nan = nan.
Proof.
  apply Prim2SF_inj. rewrite mul_spec.
  change (Prim2SF nan) with S754_nan. destruct (Prim2SF x); reflexivity.
Qed.

Lemma sub_nan_l x : nan - x = nan.
Proof. apply Prim2SF_inj. rewrite sub_spec. reflexivity. Qed.

Lemma sub_nan_r x : x - nan = nan.
Proof.
  apply Prim2SF_inj. rewrite sub_spec.
  change (Prim2SF nan) with S754_nan. destruct (Prim2SF x); reflexivity.
Qed.

(** A float that is not finite is a NaN or an infinity. *)
Lemma not_finite x :
  is_finite x = false -> is_nan x = true \/ is_infinity x = true.
Proof.
  rewrite is_finite_spec, is_nan_spec, is_infinity_spec.
  destruct (Prim2SF x); cbn; auto; discriminate.
Qed.

(** An infinity plus a finite float is that infinity, and the sum minus
    the infinity is a NaN. *)
Lemma inf_add x y :
  is_infinity x = true -> is_finite y = true ->
  is_infinity (x + y) = true /\ is_nan (x + y - x) = true.
Proof.
  rewrite !is_infinity_spec, is_finite_spec, is_nan_spec, sub_spec, !add_spec.
  destruct (Prim2SF x) as [sx|sx| |sx mx ex]; try discriminate.
  destruct (Prim2SF y) as [sy|sy| |sy my ey]; try discriminate;
    intros _ _; destruct sx; split; reflexivity.
Qed.

(** A NaN or an infinity times 1000 is a NaN or an infinity. *)
Lemma mul_1000_not_finite x :
  is_finite x = false -> is_finite (x * 1000) = false.
Proof.
  rewrite !is_finite_spec, mul_spec.
  change (Prim2SF 1000) with (S754_finite false 8796093022208000 (-43)).
  destruct (Prim2SF x) as [sx|sx| |sx mx ex]; try discriminate; reflexivity.
Qed.

Lemma add_not_finite x y : is_finite x = false -> is_finite (x + y) = false.
Proof.
  intros H. destruct (is_finite (x + y)) eqn:E; [|reflexivity].
  apply add_finite_l in E. congruence.
Qed.

(** [int(-x)] is [-int(x)], with the same exception when there is one. *)
Lemma to_int_opp x :
  Float.to_int (- x)
  = match Float.to_int x with Ok n => Ok (- n)%Z | Raise e => Raise e end.
Proof.
  unfold Float.to_int. rewrite opp_spec.
  destruct (Prim2SF x) as [s|s| |s m e]; try reflexivity.
  cbn [SFopp]. destruct s; cbn [negb cond_Zopp]; f_equal; lia.
Qed.

Lemma to_int_not_finite x :
  is_finite x = false ->
  Float.to_int x = Raise ValueError \/ Float.to_int x = Raise OverflowError.
Proof.
  rewrite is_finite_spec. unfold Float.to_int.
  destruct (Prim2SF x); try discriminate; auto.
Qed.

(** [a <= b < c] gives [a < c]. *)
Lemma leb_ltb_trans a b c :
  (a <=? b) = true -> (b <? c) = true -> (a <? c) = true.
Proof.
  intros L T. destruct (leb_not_nan _ _ L) as [Na Nb].
  assert (Nc : is_nan c = false).
  { destruct (is_nan c) eqn:E; [|reflexivity].
    rewrite (ltb_nan_r b c E) in T. discriminate T. }
  apply (leb_rank a b Na Nb) in L. apply (ltb_rank b c Nb Nc) in T.
  apply (ltb_rank a c Na Nc). unfold sf_lt in *. lia.
Qed.

(** Back from a specification value with the sign bit clear comes a
    float that is not negative. *)
Lemma SF2Prim_nonneg y : signed false y -> (0 <=? SF2Prim y) = true.
Proof.
  intros [N S]. destruct y as [s|s| |s m e]; try discriminate;
    cbn [sf_sign] in S; subst s; try reflexivity.
  unfold SF2Prim. rewrite leb_zero_spec, Z_ldexp_spec, of_uint63_spec.
  assert (B : signed false
                (binary_normalize prec emax
                   (Uint63.to_Z (Uint63.of_Z (Z.pos m))) 0 false)).
  { pose proof (Uint63.to_Z_bounded (Uint63.of_Z (Z.pos m))) as Bd.
    destruct (Uint63.to_Z (Uint63.of_Z (Z.pos m))) as [|p|p];
      [split; reflexivity| |lia].
    apply binary_round_signed. }
  destruct B as [Bn Bs].
  destruct (binary_normalize prec emax _ 0 false) as [s|s| |s m' e'];
    try discriminate; cbn [sf_sign] in Bs; subst s; try reflexivity.
  unfold SFldexp.
  destruct (binary_round_signed false m' (e' + e)) as [Rn Rs].
  unfold sf_nonneg. rewrite Rn, Rs. apply orb_true_r.
Qed.

(** Rounding to decimals keeps a float that is not negative so. *)
Lemma round_nonneg x ndigits :
  (0 <=? x) = true -> (0 <=? Float.round x ndigits) = true.
Proof.
  intros H. unfold Float.round.
  pose proof H as H'. rewrite leb_zero_spec in H'.
  destruct (Prim2SF x) as [s|s| |s m e] eqn:E; try exact H.
  destruct s; [discriminate H'|]. cbv zeta.
  destruct (Float.nearest_even (Z.pos m * 10 ^ ndigits) e) as [|n|n];
    try reflexivity;
    destruct (10 ^ ndigits)%Z as [|p|p]; try reflexivity.
  apply SF2Prim_nonneg. unfold SFdiv.
  pose proof (SFdiv_core_nonneg n 0 p 0) as C.
  destruct (SFdiv_core_binary prec emax (Z.pos n) 0 (Z.pos p) 0)
    as [[mz ez] lz]. cbn [fst] in C.
  apply (bra_signed false). exact C.
Qed.

End FloatMore.

(* ================================================================== *)
(** ** More on parsing the query *)

Module ParseMore.

Import StrFacts.

(** [sep.join(parts)] for a one-character separator. *)
Fixpoint join (sep : N) (parts : list Str.t) : Str.t :=
  match parts with
  | [] => []
  | [p] => p
  | p :: ps => p ++ sep :: join sep ps
  end.

(** What an item of a parsed query looks like: not empty, no comma in
    it, and no whitespace at either end. *)
Definition item_ok (it : Str.t) : Prop :=
  it <> [] /\ ~ In Str.comma it /\ Str.strip it = it.

Lemma lstrip_incl s c : In c (Str.lstrip s) -> In c s.
Proof.
  induction s as [|x s IH]; cbn [Str.lstrip]; [auto|].
  destruct (Str.isspace x); [right; auto|auto].
Qed.

Lemma strip_incl s c : In c (Str.strip s) -> In c s.
Proof.
  unfold Str.strip, Str.rstrip. intros H.
  rewrite <- in_rev in H. apply lstrip_incl in H. rewrite <- in_rev in H.
  apply lstrip_incl, H.
Qed.

(** What [lstrip] leaves is empty or starts with a character that is not
    whitespace. *)
Lemma lstrip_head s :
  Str.lstrip s = []
  \/ exists c r, Str.lstrip s = c :: r /\ Str.isspace c = false.
Proof.
  induction s as [|x s IH]; cbn [Str.lstrip]; [left; reflexivity|].
  destruct (Str.isspace x) eqn:E; [exact IH|right; eauto].
Qed.

Lemma lstrip_idem s : Str.lstrip (Str.lstrip s) = Str.lstrip s.
Proof.
  destruct (lstrip_head s) as [->|[c [r [-> E]]]]; [reflexivity|].
  cbn [Str.lstrip]. rewrite E. reflexivity.
Qed.

Lemma lstrip_snoc l c :
  Str.isspace c = false -> Str.lstrip (l ++ [c]) = Str.lstrip l ++ [c].
Proof.
  intros E. induction l as [|x l IH]; cbn [Str.lstrip app].
  - rewrite E. reflexivity.
  - destruct (Str.isspace x); [exact IH|reflexivity].
Qed.

Lemma rstrip_cons c r :
  Str.isspace c = false -> Str.rstrip (c :: r) = c :: Str.rstrip r.
Proof.
  intros E. unfold Str.rstrip. cbn [rev].
  rewrite (lstrip_snoc _ _ E), rev_app_distr. reflexivity.
Qed.

Lemma rstrip_idem s : Str.rstrip (Str.rstrip s) = Str.rstrip s.
Proof.
  unfold Str.rstrip. rewrite rev_involutive, lstrip_idem. reflexivity.
Qed.

(** Stripping twice is stripping once. *)
Lemma strip_idem s : Str.strip (Str.strip s) = Str.strip s.
Proof.
  unfold Str.strip. destruct (lstrip_head s) as [->|[c [r [-> E]]]];
    [reflexivity|].
  rewrite (rstrip_cons c r E). cbn [Str.lstrip]. rewrite E.
  rewrite (rstrip_cons _ _ E), rstrip_idem. reflexivity.
Qed.

(** No part of a split holds the separator. *)
Lemma split_no_sep sep s : Forall (fun p => ~ In sep p) (Str.split sep s).
Proof.
  induction s as [|c s IH]; cbn [Str.split]; [repeat constructor; auto|].
  destruct (N.eqb_spec c sep) as [E|E]; [constructor; auto|].
  destruct (Str.split sep s) as [|p ps]; [repeat constructor|].
  - intros [H|[]]. congruence.
  - inversion IH as [|? ? Hp Hps]; subst. constructor; [|exact Hps].
    intros [H|H]; [congruence|contradiction].
Qed.

(** Splitting what was joined gives the parts back. *)
Lemma split_join sep parts :
  parts <> [] -> Forall (fun p => ~ In sep p) parts ->
  Str.split sep (join sep parts) = parts.
Proof.
  assert (One : forall p, ~ In sep p -> Str.split sep p = [p]).
  { induction p as [|c p IH]; intros H; cbn [Str.split]; [reflexivity|].
    destruct (N.eqb_spec c sep) as [E|E]; [exfalso; apply H; left; exact E|].
    rewrite IH by (intros C; apply H; right; exact C). reflexivity. }
  assert (More : forall p rest, ~ In sep p ->
            Str.split sep (p ++ sep :: rest) = p :: Str.split sep rest).
  { induction p as [|c p IH]; intros rest H; cbn [Str.split app].
    - rewrite N.eqb_refl. reflexivity.
    - destruct (N.eqb_spec c sep) as [E|E];
        [exfalso; apply H; left; exact E|].
      rewrite IH by (intros C; apply H; right; exact C). reflexivity. }
  induction parts as [|p ps IH]; intros Hne F; [contradiction|].
  inversion F as [|? ? Hp Hps]; subst.
  destruct ps as [|q ps]; cbn [join]; [apply One, Hp|].
  rewrite (More p _ Hp). f_equal. apply IH; [discriminate|exact Hps].
Qed.

End ParseMore.

Section ParseClaims.

Import StrFacts ParseMore.

(** Every parsed item is a non-empty string with no comma in it and no
    whitespace at its ends, and its characters come from the query. *)
Lemma parsed_ok query :
  Forall (fun it => item_ok it /\ incl it query) (parse_items query).
Proof.
  unfold parse_items.
  assert (I : Forall (fun p => incl p query) (Str.split Str.comma query)).
  { induction query as [|c s IH]; cbn [Str.split].
    - constructor; [intros x []|constructor].
    - assert (IH' : Forall (fun p => incl p (c :: s)) (Str.split Str.comma s)).
      { eapply Forall_impl; [|exact IH]. intros p H x Hx. right. auto. }
      destruct (c =? Str.comma)%N.
      + constructor; [intros x []|exact IH'].
      + destruct (Str.split Str.comma s) as [|p ps].
        * constructor; [|constructor]. intros x [<-|[]]. left. reflexivity.
        * inversion IH' as [|? ? Hp Hps]; subst. constructor; [|exact Hps].
          intros x [<-|Hx]; [left; reflexivity|apply Hp, Hx]. }
  pose proof (split_no_sep Str.comma query) as S.
  induction (Str.split Str.comma query) as [|p ps IH]; cbn [filter List.map];
    [constructor|].
  inversion S as [|? ? Sp Sps]; inversion I as [|? ? Ip Ips]; subst.
  destruct (Str.truthy (Str.strip p)) eqn:T; cbn [List.map];
    [constructor|]; try (apply IH; assumption).
  split; [split; [|split]|].
  - intros E. rewrite E in T. discriminate T.
  - intros C. apply Sp, strip_incl, C.
  - apply strip_idem.
  - intros x Hx. apply Ip, strip_incl, Hx.
Qed.

Lemma parsed_join parts :
  Forall (fun p => ~ In Str.comma p) parts ->
  parse_items (join Str.comma parts)
  = List.map Str.strip (filter (fun p => Str.truthy (Str.strip p)) parts).
Proof.
  intros F. destruct parts as [|p ps]; [reflexivity|].
  unfold parse_items. rewrite split_join; [reflexivity|discriminate|exact F].
Qed.

Lemma parsed_back items :
  Forall item_ok items -> parse_items (join Str.comma items) = items.
Proof.
  intros F. rewrite parsed_join
    by (eapply Forall_impl; [|exact F]; intros it H; apply H).
  induction F as [|it items [Hne [_ Hs]] _ IH]; [reflexivity|].
  cbn [filter]. rewrite Hs. destruct it as [|c it]; [contradiction|].
  cbn [Str.truthy List.map]. rewrite Hs, IH. reflexivity.
Qed.

(** Every parsed item is a non-empty string with no comma in it and no
    whitespace at its ends, and its characters come from the query. *)
Theorem parse_items_wellformed query :
  Forall (fun it => item_ok it /\ incl it query) (parse_items query).
Proof. apply parsed_ok. Qed.

(** A query written by joining parts with commas parses to the parts
    that are not blank, each stripped, in their order. *)
Theorem parse_items_join parts :
  Forall (fun p => ~ In Str.comma p) parts ->
  parse_items (join Str.comma parts)
  = List.map Str.strip (filter (fun p => Str.truthy (Str.strip p)) parts).
Proof. apply parsed_join. Qed.

Lemma parse_items_join_witness :
  parse_items
    (join Str.comma [Str.lit "eggs"; Str.lit "  "; Str.lit " whole milk "])
  = [Str.lit "eggs"; Str.lit "whole milk"].
Proof.
  rewrite (parse_items_join
             [Str.lit "eggs"; Str.lit "  "; Str.lit " whole milk "]).
  - reflexivity.
  - repeat constructor; vm_compute; intuition discriminate.
Defined.

(** Items go through a comma-separated query unchanged: joining items
    with commas and parsing gives the items back. *)
Theorem parse_items_roundtrip items :
  Forall item_ok items -> parse_items (join Str.comma items) = items.
Proof. apply parsed_back. Qed.

Lemma parse_items_roundtrip_witness :
  parse_items (join Str.comma [Str.lit "eggs"; Str.lit "whole milk"])
  = [Str.lit "eggs"; Str.lit "whole milk"].
Proof.
  apply (parse_items_roundtrip [Str.lit "eggs"; Str.lit "whole milk"]).
  repeat constructor; try discriminate; vm_compute; intuition discriminate.
Defined.

(** Parsing is a normal form: the items of a query, joined, parse to
    themselves. *)
Theorem parse_items_idempotent query :
  parse_items (join Str.comma (parse_items query)) = parse_items query.
Proof.
  apply parsed_back.
  eapply Forall_impl; [|apply parsed_ok]. intros it H. apply H.
Qed.

End ParseClaims.

(* ================================================================== *)
(** ** Prices, items and store ids *)

Section PricingMore.

Import FloatFacts FloatMore.
Variable hash : Str.t -> Z.
Local Open Scope float_scope.

Lemma price_bounds name chain :
  (0.99 <=? price hash name chain) = true
  /\ (price hash name chain <=? 7.33) = true
  /\ Float.round (price hash name chain) 2 = price hash name chain.
Proof.
  rewrite price_eq.
  set (P := fun k h =>
              (0.99 <=? price_of k h) && (price_of k h <=? 7.33)
              && PrimFloat.Leibniz.eqb (Float.round (price_of k h) 2)
                   (price_of k h)).
  assert (Tb : forallb (fun k => forallb (P k) (upto 100)) (upto 8) = true)
    by (vm_compute; reflexivity).
  pose proof (by_table hash P Tb name chain) as T.
  unfold P in T. rewrite !andb_true_iff in T. destruct T as [[T1 T2] T3].
  repeat split; try assumption. apply FloatAxioms.Leibniz.eqb_spec, T3.
Qed.

(** A price lies between 0.99 and 7.33, and has two decimals: rounding
    it again changes nothing. *)
Theorem price_range name chain :
  (0.99 <=? price hash name chain) = true
  /\ (price hash name chain <=? 7.33) = true
  /\ Float.round (price hash name chain) 2 = price hash name chain.
Proof. apply price_bounds. Qed.

(** The inner loop from any state: the items are appended in order and
    their prices added to the total one after the other. *)
Lemma enrich_from chain items : forall (enriched : list Item.t) total,
  fold_left
    (fun '(enriched, total) name =>
       let p := price hash name chain in
       (enriched ++ [ {| Item.name := name; Item.price := p;
                         Item.quantity := 1 |} ],
        total + p))
    items (enriched, total)
  = (enriched
     ++ List.map (fun name => {| Item.name := name;
                                 Item.price := price hash name chain;
                                 Item.quantity := 1 |}) items,
     fold_left PrimFloat.add
       (List.map (fun name => price hash name chain) items) total).
Proof.
  induction items as [|name items IH]; intros enriched total;
    cbn [fold_left List.map]; [rewrite app_nil_r; reflexivity|].
  rewrite IH, <- app_assoc. reflexivity.
Qed.

Lemma enrich_facts items chain :
  let enriched := fst (enrich hash items chain) in
  let total := snd (enrich hash items chain) in
  List.map Item.name enriched = items
  /\ List.map Item.price enriched
     = List.map (fun name => price hash name chain) items
  /\ Forall (fun it => Item.quantity it = 1%Z) enriched
  /\ total
     = fold_left PrimFloat.add
         (List.map (fun name => price hash name chain) items) 0
  /\ (0 <=? total) = true.
Proof.
  intros enriched total. subst enriched total.
  pose proof (enrich_total_nonneg hash items chain) as P.
  unfold enrich in *. rewrite enrich_from in *. cbn [fst snd app] in *.
  rewrite !map_map. cbn [Item.name Item.price].
  split; [apply map_id|]. split; [reflexivity|]. split; [|split; auto].
  apply Forall_map, Forall_forall. reflexivity.
Qed.

(** The items of a store are the parsed items in query order, each with
    its price at the chain and the quantity 1; the total is the sum of the
    prices from 0.0, taken left to right, and is not negative. *)
Theorem enrich_items items chain :
  let enriched := fst (enrich hash items chain) in
  let total := snd (enrich hash items chain) in
  List.map Item.name enriched = items
  /\ List.map Item.price enriched
     = List.map (fun name => price hash name chain) items
  /\ Forall (fun it => Item.quantity it = 1%Z) enriched
  /\ total
     = fold_left PrimFloat.add
         (List.map (fun name => price hash name chain) items) 0
  /\ (0 <=? total) = true.
Proof. apply enrich_facts. Qed.

(** [store_id] does not see the sign of a coordinate: a store and its
    mirror image across the equator or the prime meridian get one id, or
    raise one exception. *)
Theorem store_id_mirror chain a b :
  store_id chain (- a) b = store_id chain a b
  /\ store_id chain a (- b) = store_id chain a b.
Proof.
  unfold store_id. rewrite !mul_opp_l, !to_int_opp. split.
  - destruct (Float.to_int (a * 1000)) as [n|e]; cbn [bind]; [|reflexivity].
    rewrite Z.abs_opp. reflexivity.
  - destruct (Float.to_int (a * 1000)) as [n|e]; cbn [bind]; [|reflexivity].
    destruct (Float.to_int (b * 1000)) as [k|e]; cbn [bind]; [|reflexivity].
    rewrite Z.abs_opp. reflexivity.
Qed.

Lemma to_int_total x :
  is_finite x = true -> exists n, Float.to_int x = Ok n.
Proof.
  rewrite is_finite_spec. unfold Float.to_int.
  destruct (Prim2SF x); try discriminate; eauto.
Qed.

(** A store id is made exactly when the thousandfolds of both
    coordinates are finite; otherwise the first of them that is not
    raises, [ValueError] for a NaN and [OverflowError] for an infinity. *)
Theorem store_id_defined chain a b :
  ((exists sid, store_id chain a b = Ok sid)
   <-> is_finite (a * 1000) = true /\ is_finite (b * 1000) = true)
  /\ (is_nan (a * 1000) = true -> store_id chain a b = Raise ValueError)
  /\ (is_infinity (a * 1000) = true ->
      store_id chain a b = Raise OverflowError)
  /\ (is_finite (a * 1000) = true -> is_nan (b * 1000) = true ->
      store_id chain a b = Raise ValueError)
  /\ (is_finite (a * 1000) = true -> is_infinity (b * 1000) = true ->
      store_id chain a b = Raise OverflowError).
Proof.
  assert (Nan : forall x, is_nan x = true -> Float.to_int x = Raise ValueError).
  { intros x. rewrite is_nan_spec. unfold Float.to_int.
    destruct (Prim2SF x); try discriminate; reflexivity. }
  assert (Inf : forall x, is_infinity x = true ->
                          Float.to_int x = Raise OverflowError).
  { intros x. rewrite is_infinity_spec. unfold Float.to_int.
    destruct (Prim2SF x); try discriminate; reflexivity. }
  unfold store_id. split; [split|split; [|split; [|split]]].
  - intros [sid H].
    destruct (Float.to_int (a * 1000)) as [n|e] eqn:A; cbn [bind] in H;
      [|discriminate].
    destruct (Float.to_int (b * 1000)) as [k|e] eqn:B; cbn [bind] in H;
      [|discriminate].
    split; eapply to_int_finite; eassumption.
  - intros [A B]. destruct (to_int_total _ A) as [n ->].
    destruct (to_int_total _ B) as [k ->]. cbn [bind]. eauto.
  - intros A. rewrite (Nan _ A). reflexivity.
  - intros A. rewrite (Inf _ A). reflexivity.
  - intros A B. destruct (to_int_total _ A) as [n ->]. rewrite (Nan _ B).
    reflexivity.
  - intros A B. destruct (to_int_total _ A) as [n ->]. rewrite (Inf _ B).
    reflexivity.
Qed.

End PricingMore.

(* ================================================================== *)
(** ** The stores of a response *)

Section ResponseMore.

Import FloatFacts FloatMore.
Variable lm : Libm.
Variable hash : Str.t -> Z.
Local Open Scope float_scope.

Lemma subseq_incl {A} (l l' : list A) : subseq l l' -> incl l l'.
Proof.
  induction 1 as [|x l l' _ IH|x l l' _ IH]; intros y Hy.
  - exact Hy.
  - right. apply IH, Hy.
  - destruct Hy as [<-|Hy]; [left; reflexivity|right; apply IH, Hy].
Qed.

Lemma subseq_length {A} (l l' : list A) :
  subseq l l' -> (List.length l <= List.length l')%nat.
Proof. induction 1; cbn [List.length]; lia. Qed.

Lemma subseq_NoDup {A} (l l' : list A) : subseq l l' -> NoDup l' -> NoDup l.
Proof.
  induction 1 as [|x l l' _ IH|x l l' S IH]; intros N.
  - exact N.
  - inversion N; subst. auto.
  - inversion N as [|? ? Hx N']; subst. constructor; [|auto].
    intros C. apply Hx. eapply subseq_incl; eassumption.
Qed.

(** Where each store a loop appended comes from. *)
Definition store_from (payload : SearchRequest.t) (items : list Str.t)
    (entries : list entry) (s : StoreResult.t) : Prop :=
  exists en d sid,
    In en entries
    /\ distance lm payload en = Ok d
    /\ outside_radius (SearchRequest.radiusMiles payload) d = false
    /\ store_id (fst en) (store_lat payload en) (store_lng payload en)
       = Ok sid
    /\ s = store_of hash payload items en d sid.

Lemma turns_stores payload items entries dists news :
  turns lm hash payload items entries dists news ->
  Forall (store_from payload items entries) news.
Proof.
  induction 1 as [|en rest dist dists new news [D H] _ IH]; [constructor|].
  apply Forall_app. split.
  - destruct H as [[_ ->]|[O [sid [S ->]]]]; constructor; [|constructor].
    exists en, dist, sid. cbn [In]. auto 6.
  - eapply Forall_impl; [|exact IH].
    intros s [en' [d [sid [I R]]]]. exists en', d, sid. cbn [In]. auto.
Qed.

Lemma response_stores payload resp :
  search_stores lm hash payload = Ok resp ->
  Forall (store_from payload (parse_items (SearchRequest.query payload))
            (combine BASE_CHAINS offsets))
    (SearchResponse.stores resp).
Proof.
  intros H. apply search_stores_ok in H.
  destruct H as [_ [dists [news [T ->]]]]. cbn [SearchResponse.stores].
  eapply Permutation_Forall; [symmetry; apply SortFacts.sort_perm|].
  apply turns_stores with (dists := dists), T.
Qed.

(** The stores of a response are of different chains, all from
    [BASE_CHAINS], so there are at most three. *)
Theorem response_chains payload resp :
  search_stores lm hash payload = Ok resp ->
  let names := List.map StoreResult.storeName (SearchResponse.stores resp) in
  NoDup names
  /\ incl names (List.map Chain.name BASE_CHAINS)
  /\ (0 <= SearchResponse.totalStores resp <= 3)%Z.
Proof.
  intros H names. subst names. apply search_stores_ok in H.
  destruct H as [_ [dists [news [T ->]]]].
  cbn [SearchResponse.stores SearchResponse.totalStores].
  pose proof (kept_subseq payload (combine BASE_CHAINS offsets) dists) as S.
  rewrite <- (turns_names _ _ _ _ _ _ _ T) in S.
  assert (P : Permutation
                (List.map StoreResult.storeName (Sort.sort sort_key news))
                (List.map StoreResult.storeName news))
    by apply Permutation_map, SortFacts.sort_perm.
  split; [|split].
  - eapply Permutation_NoDup; [symmetry; exact P|].
    eapply subseq_NoDup; [exact S|]. apply chain_names_nodup.
  - intros x Hx. eapply subseq_incl; [exact S|].
    eapply Permutation_in; [exact P|exact Hx].
  - rewrite SortFacts.sort_length.
    apply subseq_length in S. rewrite !length_map in S.
    cbn [combine BASE_CHAINS offsets List.length] in S. lia.
Qed.

End ResponseMore.

Lemma response_chains_witness :
  exists resp,
    search_stores Poly.libm Poly.hash Example.request_near = Ok resp
    /\ NoDup (List.map StoreResult.storeName (SearchResponse.stores resp))
    /\ SearchResponse.totalStores resp = 2%Z.
Proof.
  eexists. split; [vm_compute; reflexivity|]. split; [|reflexivity].
  match goal with
  | |- NoDup (List.map _ (SearchResponse.stores ?r)) =>
      apply (response_chains Poly.libm Poly.hash Example.request_near r)
  end.
  vm_compute. reflexivity.
Defined.

(* ================================================================== *)
(** ** What a response holds, and how it follows the request *)

(** The request with another radius, and with another query. *)
Definition with_radius (payload : SearchRequest.t) (r : option float)
  : SearchRequest.t :=
  {| SearchRequest.query := SearchRequest.query payload;
     SearchRequest.lat := SearchRequest.lat payload;
     SearchRequest.lng := SearchRequest.lng payload;
     SearchRequest.radiusMiles := r |}.

Definition with_query (payload : SearchRequest.t) (q : Str.t)
  : SearchRequest.t :=
  {| SearchRequest.query := q;
     SearchRequest.lat := SearchRequest.lat payload;
     SearchRequest.lng := SearchRequest.lng payload;
     SearchRequest.radiusMiles := SearchRequest.radiusMiles payload |}.

Section RequestMore.

Import FloatFacts FloatMore.
Variable lm : Libm.
Variable hash : Str.t -> Z.
Local Open Scope float_scope.

(** Each store of a response lists the parsed items in query order, each
    once and at a price from 0.99 to 7.33, the price of the item at the
    store's chain; its total is the rounded sum of these prices, and is
    not negative. *)
Theorem response_items payload resp :
  search_stores lm hash payload = Ok resp ->
  let items := parse_items (SearchRequest.query payload) in
  Forall
    (fun s =>
       List.map Item.name (StoreResult.items s) = items
       /\ Forall (fun it => Item.quantity it = 1%Z
                            /\ (0.99 <=? Item.price it) = true
                            /\ (Item.price it <=? 7.33) = true)
            (StoreResult.items s)
       /\ (exists chain,
             In chain BASE_CHAINS
             /\ StoreResult.storeName s = Chain.name chain
             /\ List.map Item.price (StoreResult.items s)
                = List.map (fun name => price hash name chain) items
             /\ StoreResult.totalPrice s
                = Float.round
                    (fold_left PrimFloat.add
                       (List.map (fun name => price hash name chain) items) 0)
                    2)
       /\ (0 <=? StoreResult.totalPrice s) = true)
    (SearchResponse.stores resp).
Proof.
  intros H items. subst items. apply response_stores in H.
  eapply Forall_impl; [|exact H].
  intros s [en [d [sid [I [_ [_ [_ ->]]]]]]].
  cbn [store_of StoreResult.items StoreResult.storeName
         StoreResult.totalPrice].
  destruct (enrich_facts hash (parse_items (SearchRequest.query payload))
              (fst en)) as [E1 [E2 [E3 [E4 E5]]]].
  split; [exact E1|]. split; [|split].
  - apply Forall_forall. intros it Hit. split.
    + rewrite Forall_forall in E3. apply E3, Hit.
    + assert (P : In (Item.price it)
                    (List.map (fun name => price hash name (fst en))
                       (parse_items (SearchRequest.query payload)))).
      { rewrite <- E2. apply in_map, Hit. }
      apply in_map_iff in P. destruct P as [name [<- _]].
      destruct (price_bounds hash name (fst en)) as [B1 [B2 _]]. auto.
  - exists (fst en). split; [|split; [reflexivity|split; [exact E2|]]].
    + destruct en as [chain off]. apply in_combine_l in I. exact I.
    + rewrite E4. reflexivity.
  - apply round_nonneg, E5.
Qed.

(** Each store of a response is one of the three candidates: it has the
    chain's name, the rounded haversine distance from the user, the
    rounded coordinates of the user plus the chain's offset, and the id
    built from the chain's id and the truncated thousandfolds of the
    unrounded coordinates; the radius is not below the unrounded
    distance; and the user's coordinates are finite. *)
Theorem response_places payload resp :
  search_stores lm hash payload = Ok resp ->
  let lat := SearchRequest.lat payload in
  let lng := SearchRequest.lng payload in
  Forall
    (fun s =>
       exists chain dlat dlng d a b,
         In (chain, (dlat, dlng)) (combine BASE_CHAINS offsets)
         /\ StoreResult.storeName s = Chain.name chain
         /\ haversine lm lat lng (lat + dlat) (lng + dlng) = Ok d
         /\ outside_radius (SearchRequest.radiusMiles payload) d = false
         /\ StoreResult.distanceMiles s = Float.round d 2
         /\ StoreResult.lat s = Float.round (lat + dlat) 6
         /\ StoreResult.lng s = Float.round (lng + dlng) 6
         /\ Float.to_int ((lat + dlat) * 1000) = Ok a
         /\ Float.to_int ((lng + dlng) * 1000) = Ok b
         /\ StoreResult.storeId s
            = Chain.id chain ++ Str.lit "-" ++ Str.of_nonneg (Z.abs a)
                ++ Str.lit "-" ++ Str.of_nonneg (Z.abs b)
         /\ is_finite lat = true /\ is_finite lng = true)
    (SearchResponse.stores resp).
Proof.
  intros H lat lng. subst lat lng. apply response_stores in H.
  eapply Forall_impl; [|exact H].
  intros s [[chain [dlat dlng]] [d [sid [I [D [O [S ->]]]]]]].
  destruct (store_id_user_finite _ _ _ S) as [F1 [F2 _]].
  unfold store_id, store_lat, store_lng in S. cbn [fst snd] in S.
  destruct (Float.to_int ((SearchRequest.lat payload + dlat) * 1000))
    as [a|e] eqn:A; cbn [bind] in S; [|discriminate].
  destruct (Float.to_int ((SearchRequest.lng payload + dlng) * 1000))
    as [b|e] eqn:B; cbn [bind] in S; [|discriminate].
  injection S as <-.
  exists chain, dlat, dlng, d, a, b. cbn. auto 15.
Qed.

(** On a platform whose [sin] and [cos] stay within [-1, 1], no store of
    a response has a negative distance, or a NaN for one. *)
Theorem response_distances payload resp :
  Platform.ranges lm ->
  search_stores lm hash payload = Ok resp ->
  Forall (fun s => (0 <=? StoreResult.distanceMiles s) = true)
    (SearchResponse.stores resp).
Proof.
  intros R H. apply response_stores in H.
  eapply Forall_impl; [|exact H].
  intros s [en [d [sid [I [D [O [S ->]]]]]]].
  cbn [store_of StoreResult.distanceMiles]. apply round_nonneg.
  destruct (store_id_user_finite _ _ _ S) as [A [B [C E]]].
  exact (haversine_nonneg lm _ _ _ _ _ R A B C E D).
Qed.

(** Two requests at one position whose radii filter alike are visited
    alike. *)
Lemma visit_ext p1 p2 items stores en :
  SearchRequest.lat p1 = SearchRequest.lat p2 ->
  SearchRequest.lng p1 = SearchRequest.lng p2 ->
  (forall d, outside_radius (SearchRequest.radiusMiles p1) d
             = outside_radius (SearchRequest.radiusMiles p2) d) ->
  visit lm hash p1 items stores en = visit lm hash p2 items stores en.
Proof.
  intros A B O. destruct en as [chain [dlat dlng]].
  unfold visit, candidate. rewrite A, B.
  destruct (haversine lm _ _ _ _) as [d|e]; cbn [bind]; [|reflexivity].
  rewrite O. reflexivity.
Qed.

Lemma visit_all_ext p1 p2 items entries :
  SearchRequest.lat p1 = SearchRequest.lat p2 ->
  SearchRequest.lng p1 = SearchRequest.lng p2 ->
  (forall d, outside_radius (SearchRequest.radiusMiles p1) d
             = outside_radius (SearchRequest.radiusMiles p2) d) ->
  forall stores,
    visit_all lm hash p1 items stores entries
    = visit_all lm hash p2 items stores entries.
Proof.
  intros A B O. induction entries as [|en rest IH]; intros stores;
    cbn [visit_all]; [reflexivity|].
  rewrite (visit_ext p1 p2 items stores en A B O).
  destruct (visit lm hash p2 items stores en); cbn [bind];
    [apply IH|reflexivity].
Qed.

Lemma infinity_ltb d : (infinity <? d) = false.
Proof.
  rewrite ltb_spec. change (Prim2SF infinity) with (S754_infinity false).
  destruct (Prim2SF d) as [s|s| |s m e]; try reflexivity; destruct s;
    reflexivity.
Qed.

(** A radius of 0.0 or -0.0, a NaN and the positive infinity filter
    nothing: the search answers, or raises, as it does without a radius. *)
Theorem radius_disabled payload r :
  (r =? 0) = true \/ is_nan r = true \/ r = infinity ->
  search_stores lm hash (with_radius payload (Some r))
  = search_stores lm hash (with_radius payload None).
Proof.
  intros H.
  assert (O : forall d, outside_radius (Some r) d = outside_radius None d).
  { intros d. unfold outside_radius, Float.truthy.
    destruct H as [Z|[N| ->]].
    - rewrite Z. reflexivity.
    - rewrite (ltb_nan_l r d N). apply andb_false_r.
    - rewrite infinity_ltb. apply andb_false_r. }
  unfold search_stores. cbn [with_radius SearchRequest.query].
  destruct (parse_items (SearchRequest.query payload)) as [|i items];
    [reflexivity|].
  rewrite (visit_all_ext (with_radius payload (Some r))
             (with_radius payload None) (i :: items) _ eq_refl eq_refl O).
  reflexivity.
Qed.

(** The search reads the query through its items only: a query with the
    same items gets the same answer, its own text echoed. *)
Theorem query_normal payload q :
  parse_items q = parse_items (SearchRequest.query payload) ->
  search_stores lm hash (with_query payload q)
  = match search_stores lm hash payload with
    | Ok resp =>
        Ok {| SearchResponse.query := q;
              SearchResponse.mode := SearchResponse.mode resp;
              SearchResponse.totalStores := SearchResponse.totalStores resp;
              SearchResponse.stores := SearchResponse.stores resp |}
    | Raise e => Raise e
    end.
Proof.
  intros H. unfold search_stores. cbn [with_query SearchRequest.query].
  rewrite H.
  destruct (parse_items (SearchRequest.query payload)) as [|i items];
    [reflexivity|].
  rewrite (visit_all_ext (with_query payload q) payload (i :: items) _
             eq_refl eq_refl (fun d => eq_refl)).
  destruct (visit_all lm hash payload (i :: items) []
              (combine BASE_CHAINS offsets)); reflexivity.
Qed.

Lemma turns_same_distances p1 p2 items1 items2 entries :
  SearchRequest.lat p1 = SearchRequest.lat p2 ->
  SearchRequest.lng p1 = SearchRequest.lng p2 ->
  forall dists1 dists2 news1 news2,
    turns lm hash p1 items1 entries dists1 news1 ->
    turns lm hash p2 items2 entries dists2 news2 ->
    dists1 = dists2.
Proof.
  intros A B dists1 dists2 news1 news2 T1 T2.
  apply turns_distances in T1, T2. revert dists2 T2.
  induction T1 as [|en d1 rest ds1 D1 _ IH]; intros dists2 T2;
    inversion T2 as [|? d2 ? ds2 D2 T2']; subst; [reflexivity|].
  unfold distance, store_lat, store_lng in D1, D2. rewrite A, B in D1.
  rewrite D1 in D2. injection D2 as ->. f_equal. apply IH, T2'.
Qed.

Lemma kept_mono p1 p2 (entries : list entry) dists :
  (forall d, outside_radius (SearchRequest.radiusMiles p1) d = false ->
             outside_radius (SearchRequest.radiusMiles p2) d = false) ->
  incl (List.map kept_name (kept p1 entries dists))
    (List.map kept_name (kept p2 entries dists)).
Proof.
  intros M. unfold kept.
  induction (combine entries dists) as [|ed l IH]; cbn [filter];
    [intros x []|].
  destruct (outside_radius (SearchRequest.radiusMiles p1) (snd ed)) eqn:O1;
    cbn [negb].
  - intros x Hx. apply IH in Hx.
    destruct (negb _); [right; exact Hx|exact Hx].
  - rewrite (M _ O1). cbn [negb List.map].
    intros x [<-|Hx]; [left; reflexivity|right; apply IH, Hx].
Qed.

(** A wider radius loses no store: when the searches under two radii
    answer, the smaller one not zero, the chains found under the smaller
    are found under the larger, and they are no more. *)
Theorem radius_monotone payload r1 r2 resp1 resp2 :
  (r1 =? 0) = false -> (r1 <=? r2) = true ->
  search_stores lm hash (with_radius payload (Some r1)) = Ok resp1 ->
  search_stores lm hash (with_radius payload (Some r2)) = Ok resp2 ->
  incl (List.map StoreResult.storeName (SearchResponse.stores resp1))
    (List.map StoreResult.storeName (SearchResponse.stores resp2))
  /\ (SearchResponse.totalStores resp1 <= SearchResponse.totalStores resp2)%Z.
Proof.
  intros Z L H1 H2.
  assert (M : forall d, outside_radius (Some r1) d = false ->
                        outside_radius (Some r2) d = false).
  { intros d O1. unfold outside_radius, Float.truthy in *.
    rewrite Z in O1. cbn [negb andb] in O1.
    destruct (r2 <? d) eqn:T; [|apply andb_false_r].
    rewrite (leb_ltb_trans r1 r2 d L T) in O1. discriminate O1. }
  assert (N1 : NoDup (List.map StoreResult.storeName
                        (SearchResponse.stores resp1))).
  { pose proof H1 as H. apply search_stores_ok in H.
    destruct H as [_ [dists [news [T ->]]]]. cbn [SearchResponse.stores].
    eapply Permutation_NoDup;
      [apply Permutation_map; symmetry; apply SortFacts.sort_perm|].
    rewrite (turns_names _ _ _ _ _ _ _ T).
    eapply subseq_NoDup; [apply kept_subseq|apply chain_names_nodup]. }
  apply search_stores_ok in H1, H2.
  destruct H1 as [_ [dists1 [news1 [T1 ->]]]].
  destruct H2 as [_ [dists2 [news2 [T2 ->]]]].
  cbn [SearchResponse.stores SearchResponse.totalStores] in *.
  pose proof (turns_same_distances (with_radius payload (Some r1))
                (with_radius payload (Some r2)) _ _ _ eq_refl eq_refl
                _ _ _ _ T1 T2) as E.
  subst dists2.
  assert (I : incl (List.map StoreResult.storeName (Sort.sort sort_key news1))
                (List.map StoreResult.storeName (Sort.sort sort_key news2))).
  { intros x Hx.
    eapply Permutation_in;
      [apply Permutation_map; symmetry; apply SortFacts.sort_perm|].
    rewrite (turns_names _ _ _ _ _ _ _ T2).
    apply (kept_mono (with_radius payload (Some r1))
             (with_radius payload (Some r2)) _ dists1 M).
    rewrite <- (turns_names _ _ _ _ _ _ _ T1).
    eapply Permutation_in;
      [apply Permutation_map; apply SortFacts.sort_perm|exact Hx]. }
  split; [exact I|].
  apply NoDup_incl_length in I; [|exact N1]. rewrite !length_map in I. lia.
Qed.

End RequestMore.

Lemma response_items_witness :
  exists resp,
    search_stores Poly.libm Poly.hash Example.request = Ok resp
    /\ Forall (fun s => List.map Item.name (StoreResult.items s)
                        = [Str.lit "eggs"; Str.lit "milk"])
         (SearchResponse.stores resp)
    /\ List.length (SearchResponse.stores resp) = 3%nat.
Proof.
  eexists. split; [vm_compute; reflexivity|]. split; [|reflexivity].
  eapply Forall_impl;
    [|match goal with
      | |- Forall _ (SearchResponse.stores ?r) =>
          apply (response_items Poly.libm Poly.hash Example.request r)
      end; vm_compute; reflexivity].
  intros s H. apply H.
Defined.

Lemma response_places_witness :
  exists resp,
    search_stores Poly.libm Poly.hash Example.request = Ok resp
    /\ Forall (fun s => exists d,
                 StoreResult.distanceMiles s = Float.round d 2
                 /\ outside_radius (Some 5%float) d = false)
         (SearchResponse.stores resp)
    /\ List.length (SearchResponse.stores resp) = 3%nat.
Proof.
  eexists. split; [vm_compute; reflexivity|]. split; [|reflexivity].
  eapply Forall_impl;
    [|match goal with
      | |- Forall _ (SearchResponse.stores ?r) =>
          apply (response_places Poly.libm Poly.hash Example.request r)
      end; vm_compute; reflexivity].
  intros s [chain [dlat [dlng [d [a [b H]]]]]]. exists d.
  split; apply H.
Defined.

Lemma response_distances_witness :
  exists resp,
    search_stores Poly.libm Poly.hash Example.request = Ok resp
    /\ Forall (fun s => (0 <=? StoreResult.distanceMiles s)%float = true)
         (SearchResponse.stores resp)
    /\ List.length (SearchResponse.stores resp) = 3%nat.
Proof.
  eexists. split; [vm_compute; reflexivity|]. split; [|reflexivity].
  match goal with
  | |- Forall _ (SearchResponse.stores ?r) =>
      apply (response_distances Poly.libm Poly.hash Example.request r
               PolyFacts.ranges)
  end.
  vm_compute. reflexivity.
Defined.

Lemma radius_disabled_witness :
  search_stores Poly.libm Poly.hash (with_radius Example.request (Some 0%float))
  = search_stores Poly.libm Poly.hash (with_radius Example.request None).
Proof.
  apply (radius_disabled Poly.libm Poly.hash Example.request 0).
  left. reflexivity.
Defined.

Lemma query_normal_witness :
  exists resp,
    search_stores Poly.libm Poly.hash
      (with_query Example.request (Str.lit " eggs ,, milk,"))
    = Ok resp
    /\ List.length (SearchResponse.stores resp) = 3%nat.
Proof.
  rewrite (query_normal Poly.libm Poly.hash Example.request
             (Str.lit " eggs ,, milk,") eq_refl).
  eexists. split; [vm_compute; reflexivity|reflexivity].
Defined.

Lemma radius_monotone_witness :
  exists resp1 resp2,
    search_stores Poly.libm Poly.hash
      (with_radius Example.request (Some 0.8%float)) = Ok resp1
    /\ search_stores Poly.libm Poly.hash
         (with_radius Example.request (Some 5%float)) = Ok resp2
    /\ SearchResponse.totalStores resp1 = 2%Z
    /\ SearchResponse.totalStores resp2 = 3%Z
    /\ incl (List.map StoreResult.storeName (SearchResponse.stores resp1))
         (List.map StoreResult.storeName (SearchResponse.stores resp2)).
Proof.
  eexists. eexists. split; [vm_compute; reflexivity|].
  split; [vm_compute; reflexivity|]. split; [reflexivity|].
  split; [reflexivity|].
  match goal with
  | |- incl (List.map _ (SearchResponse.stores ?a))
         (List.map _ (SearchResponse.stores ?b)) =>
      apply (radius_monotone Poly.libm Poly.hash Example.request
               0.8%float 5%float a b)
  end; vm_compute; reflexivity.
Defined.

(* ================================================================== *)
(** ** Coordinates that are not finite *)

Section NonFinite.

Import FloatFacts FloatMore.
Variable lm : Libm.
Variable hash : Str.t -> Z.

(** [sin] of a NaN is a NaN (ISO C, Annex F). *)
Hypothesis sin_nan_nan : c_sin lm nan = nan.
Local Open Scope float_scope.

(** Whatever a NaN is put into, the formula gives a NaN, when it gives
    anything. *)
Lemma haversine_nan_diff lat1 lon1 lat2 lon2 d :
  lat2 - lat1 = nan \/ lon2 - lon1 = nan ->
  haversine lm lat1 lon1 lat2 lon2 = Ok d -> d = nan.
Proof.
  intros H. rewrite haversine_unfold.
  assert (P : sin2_half lm nan = Ok nan).
  { unfold sin2_half, Math.sin, Math.math_1.
    change (Math.radians nan / 2) with nan. rewrite sin_nan_nan.
    reflexivity. }
  assert (Tail : (sa <- Math.sqrt nan ;;
                  sb <- Math.sqrt (1 - nan) ;;
                  t <- Math.atan2 lm sa sb ;;
                  Ok (3958.8 * (2 * t))) = Ok nan) by reflexivity.
  destruct H as [E|E]; rewrite E, P.
  - cbn [bind].
    destruct (Math.cos lm (Math.radians lat1)) as [c1|e]; cbn [bind];
      [|discriminate].
    destruct (Math.cos lm (Math.radians lat2)) as [c2|e]; cbn [bind];
      [|discriminate].
    destruct (sin2_half lm (lon2 - lon1)) as [p2|e]; cbn [bind];
      [|discriminate].
    cbv zeta. rewrite add_nan_l, Tail. congruence.
  - destruct (sin2_half lm (lat2 - lat1)) as [p1|e]; cbn [bind];
      [|discriminate].
    destruct (Math.cos lm (Math.radians lat1)) as [c1|e]; cbn [bind];
      [|discriminate].
    destruct (Math.cos lm (Math.radians lat2)) as [c2|e]; cbn [bind];
      [|discriminate].
    cbv zeta. rewrite mul_nan_r, add_nan_r, Tail. congruence.
Qed.

(** A NaN among the coordinates makes the distance a NaN: the function
    raises for another reason or returns a NaN. *)
Theorem haversine_nan_out lat1 lon1 lat2 lon2 d :
  is_nan lat1 || is_nan lon1 || is_nan lat2 || is_nan lon2 = true ->
  haversine lm lat1 lon1 lat2 lon2 = Ok d -> is_nan d = true.
Proof.
  intros H R.
  rewrite (haversine_nan_diff lat1 lon1 lat2 lon2 d); [reflexivity| |exact R].
  rewrite !orb_true_iff in H. destruct H as [[[H|H]|H]|H];
    apply nan_unique in H; subst;
    [left; apply sub_nan_r|right; apply sub_nan_r
    |left; apply sub_nan_l|right; apply sub_nan_l].
Qed.

(** A store put next to a position that is not finite is no number of
    degrees away from it. *)
Lemma not_finite_diff x y :
  is_finite x = false -> is_finite y = true -> x + y - x = nan.
Proof.
  intros H F. destruct (not_finite x H) as [N|I].
  - apply nan_unique in N. subst. rewrite add_nan_l. apply sub_nan_l.
  - apply nan_unique. apply (inf_add x y I F).
Qed.

(** A search at a latitude or a longitude that is a NaN or an infinity
    never answers: with an item in the query it raises [ValueError] or
    [OverflowError]. *)
Theorem nonfinite_coordinates payload :
  parse_items (SearchRequest.query payload) <> [] ->
  is_finite (SearchRequest.lat payload) = false
  \/ is_finite (SearchRequest.lng payload) = false ->
  exists e,
    search_stores lm hash payload = Raise e
    /\ (e = ValueError \/ e = OverflowError).
Proof.
  intros P H.
  destruct (search_stores lm hash payload) as [resp|e] eqn:S.
  - exfalso. apply search_stores_ok in S.
    destruct S as [_ [dists [news [T _]]]].
    cbn [combine BASE_CHAINS offsets] in T.
    inversion T as [|en rest dist dists' new news' Tn _]; subst.
    destruct Tn as [D [[O _]|[_ [sid [Sid _]]]]].
    + unfold distance, store_lat, store_lng in D. cbn [fst snd] in D.
      apply haversine_nan_diff in D.
      * subst dist. rewrite outside_radius_nan in O. discriminate O.
      * destruct H as [H|H]; [left|right];
          apply not_finite_diff; [exact H|reflexivity|exact H|reflexivity].
    + destruct (store_id_user_finite _ _ _ Sid) as [A [B _]].
      destruct H as [H|H]; congruence.
  - exists e. split; [reflexivity|].
    apply search_stores_raises in S.
    destruct S as [[P' _]|[_ C]]; [contradiction|exact C].
Qed.

End NonFinite.

Lemma haversine_nan_out_witness :
  haversine Poly.libm nan 0 0 0 = Ok nan /\ is_nan nan = true.
Proof.
  split; [vm_compute; reflexivity|].
  apply (haversine_nan_out Poly.libm eq_refl nan 0 0 0 nan eq_refl).
  vm_compute. reflexivity.
Defined.

Lemma nonfinite_coordinates_witness :
  exists e,
    search_stores Poly.libm Poly.hash
      (with_radius (with_query Example.request_nan (Str.lit "eggs"))
         (Some 5%float))
    = Raise e
    /\ (e = ValueError \/ e = OverflowError).
Proof.
  apply (nonfinite_coordinates Poly.libm Poly.hash eq_refl).
  - discriminate.
  - left. reflexivity.
Defined.

(** [haversine] raises nothing but [ValueError] and [OverflowError]. *)
Theorem haversine_errors lm lat1 lon1 lat2 lon2 e :
  haversine lm lat1 lon1 lat2 lon2 = Raise e ->
  e = ValueError \/ e = OverflowError.
Proof. apply haversine_raises. Qed.

Lemma haversine_errors_witness :
  haversine Poly.libm infinity 0 0 0 = Raise ValueError
  /\ (ValueError = ValueError \/ ValueError = OverflowError).
Proof.
  split; [vm_compute; reflexivity|].
  apply (haversine_errors Poly.libm infinity 0 0 0). vm_compute. reflexivity.
Defined.

(* ================================================================== *)
(** ** The head of the ranking *)

Section Ranking.

Import FloatFacts FloatMore.
Variable lm : Libm.
Variable hash : Str.t -> Z.
Local Open Scope float_scope.

Lemma key_le_first a b :
  SortFacts.key_ok a -> SortFacts.key_ok b -> SortFacts.key_le a b ->
  (fst a <=? fst b) = true
  /\ ((fst b =? fst a) = true -> (snd a <=? snd b) = true).
Proof.
  intros [A1 A2] [B1 B2] [L|[E L]].
  - apply (ltb_rank _ _ A1 B1) in L. split.
    + apply (leb_rank _ _ A1 B1). unfold sf_lt in *. lia.
    + intros E. apply (eqb_rank _ _ B1 A1) in E.
      unfold sf_lt, sf_eq in *. lia.
  - apply (eqb_rank _ _ A1 B1) in E. split; [|intros _; exact L].
    apply (leb_rank _ _ A1 B1). unfold sf_lt, sf_eq in *. lia.
Qed.

(** On a platform whose [sin] and [cos] stay within [-1, 1], the first
    store of a response is a cheapest one, and of the cheapest ones a
    nearest. *)
Theorem cheapest_first payload resp best rest :
  Platform.ranges lm ->
  search_stores lm hash payload = Ok resp ->
  SearchResponse.stores resp = best :: rest ->
  Forall
    (fun s =>
       (StoreResult.totalPrice best <=? StoreResult.totalPrice s) = true
       /\ ((StoreResult.totalPrice s =? StoreResult.totalPrice best) = true ->
           (StoreResult.distanceMiles best <=? StoreResult.distanceMiles s)
           = true))
    rest.
Proof.
  intros R H E. apply search_stores_ok in H.
  destruct H as [_ [dists [news [T ->]]]]. cbn [SearchResponse.stores] in E.
  pose proof (turns_keys _ _ _ _ _ _ _ R T) as K.
  pose proof (SortFacts.sort_sorted sort_key news K) as S.
  assert (K' : Forall (fun s => SortFacts.key_ok (sort_key s))
                 (Sort.sort sort_key news)).
  { eapply Permutation_Forall; [symmetry; apply SortFacts.sort_perm|exact K]. }
  rewrite E in S, K'. inversion S as [|? ? _ F]; subst.
  inversion K' as [|? ? Kb Kr]; subst.
  rewrite Forall_forall in F, Kr. apply Forall_forall. intros s Hs.
  apply (key_le_first (sort_key best) (sort_key s) Kb (Kr s Hs) (F s Hs)).
Qed.

End Ranking.

Lemma cheapest_first_witness :
  exists resp best rest,
    search_stores Poly.libm Poly.hash Example.request = Ok resp
    /\ SearchResponse.stores resp = best :: rest
    /\ List.length rest = 2%nat
    /\ Forall
         (fun s =>
            (StoreResult.totalPrice best <=? StoreResult.totalPrice s)%float
            = true)
         rest.
Proof.
  eexists. eexists. eexists. split; [vm_compute; reflexivity|].
  split; [reflexivity|]. split; [reflexivity|].
  eapply Forall_impl;
    [|eapply (cheapest_first Poly.libm Poly.hash Example.request _ _ _
                PolyFacts.ranges); [vm_compute; reflexivity|reflexivity]].
  intros s H. apply H.
Defined.

(* ================================================================== *)
(** ** What the search takes from the hash *)

Section HashResidues.

Variable lm : Libm.
Variables hash1 hash2 : Str.t -> Z.

(** The two hashes agree modulo 100. *)
Hypothesis residues : forall s, (hash1 s mod 100 = hash2 s mod 100)%Z.

Lemma price_residues name chain :
  price hash1 name chain = price hash2 name chain.
Proof. rewrite !price_eq, residues. reflexivity. Qed.

Lemma enrich_residues items chain :
  enrich hash1 items chain = enrich hash2 items chain.
Proof.
  unfold enrich. generalize (@nil Item.t, 0%float).
  induction items as [|name items IH]; intros acc; cbn [fold_left];
    [reflexivity|].
  rewrite IH. destruct acc as [enriched total].
  rewrite price_residues. reflexivity.
Qed.

Lemma visit_all_residues payload items entries : forall stores,
  visit_all lm hash1 payload items stores entries
  = visit_all lm hash2 payload items stores entries.
Proof.
  induction entries as [|en rest IH]; intros stores; cbn [visit_all];
    [reflexivity|].
  assert (V : visit lm hash1 payload items stores en
              = visit lm hash2 payload items stores en).
  { unfold visit.
    destruct (candidate lm payload en) as [[[[chain slat] slng] dist]|e];
      cbn [bind]; [|reflexivity].
    rewrite enrich_residues. reflexivity. }
  rewrite V. destruct (visit lm hash2 payload items stores en); cbn [bind];
    [apply IH|reflexivity].
Qed.

(** The search takes nothing from the hash but its residues modulo 100:
    two processes whose hashes agree modulo 100 answer alike. *)
Theorem search_residues payload :
  search_stores lm hash1 payload = search_stores lm hash2 payload.
Proof.
  unfold search_stores.
  destruct (parse_items (SearchRequest.query payload)); [reflexivity|].
  rewrite visit_all_residues. reflexivity.
Qed.

End HashResidues.

Lemma search_residues_witness :
  search_stores Poly.libm Poly.hash Example.request
  = search_stores Poly.libm (fun s => Poly.hash s + 100)%Z Example.request.
Proof.
  apply (search_residues Poly.libm Poly.hash (fun s => Poly.hash s + 100)%Z).
  intros s. symmetry. apply (Z.mod_add (Poly.hash s) 1 100). lia.
Defined.

(* ================================================================== *)
(** ** The diagnostic route *)

Module DiagFacts.

Import Diag.

Definition is_set (env : Env) (k : string) : Str.t :=
  if env_truthy (getenv env k) then check_mark ++ Str.lit " Set"
  else cross_mark ++ Str.lit " Not Set".

(** The handle and its collections, when the import gave a handle and
    the listing a list. *)
Definition working (env : Env) : option (list Str.t) :=
  match import_db env with
  | Imported (Some db) =>
      match list_collection_names db with
      | Lists collections => Some collections
      | ListingRaises _ => None
      end
  | _ => None
  end.

Ltac by_cases env :=
  destruct env as [[|e|[[[n|] [collections|e]]|]] getenv].

(** The response always has the same six keys in the same order, says
    that the backend runs, and reports [database_url] and
    [database_name] from the environment variables alone: what was
    written there from the handle ([db.name] included) never comes out. *)
Theorem test_database_fields env :
  List.map fst (test_database env)
  = [ "backend"; "database"; "database_url"; "database_name";
      "connection_status"; "collections" ]%string
  /\ getitem (test_database env) "backend"
     = Some (VStr (check_mark ++ Str.lit " Running"))
  /\ getitem (test_database env) "database_url"
     = Some (VStr (is_set env "DATABASE_URL"))
  /\ getitem (test_database env) "database_name"
     = Some (VStr (is_set env "DATABASE_NAME")).
Proof. by_cases env; repeat split. Qed.

(** The status is "Connected" exactly when the import gave a handle
    that is not [None]; the collections reported are the first ten of
    the listing, and there are none unless the handle listed them. *)
Theorem test_database_connection env :
  (getitem (test_database env) "connection_status"
   = Some (VStr (Str.lit "Connected"))
   <-> exists db, import_db env = Imported (Some db))
  /\ (getitem (test_database env) "connection_status"
      = Some (VStr (Str.lit "Connected"))
      \/ getitem (test_database env) "connection_status"
         = Some (VStr (Str.lit "Not Connected")))
  /\ (exists shown,
        getitem (test_database env) "collections" = Some (VList shown)
        /\ (List.length shown <= 10)%nat
        /\ shown = match working env with
                   | Some collections => firstn 10 collections
                   | None => []
                   end).
Proof.
  split; [|split].
  - by_cases env; cbn; split; intros H; try discriminate H; eauto;
      destruct H as [db H]; discriminate H.
  - by_cases env; cbn; auto.
  - by_cases env; cbn [working import_db list_collection_names];
      eexists; (split; [reflexivity|]); split; try reflexivity;
      try (cbn; lia); apply firstn_le_length.
Qed.

(** The [database] message says "Connected & Working" exactly when the
    handle listed its collections, and whatever it says it is at most 75
    characters long: of an exception it shows no more than 50. *)
Theorem test_database_message env :
  exists message,
    getitem (test_database env) "database" = Some (VStr message)
    /\ (message = check_mark ++ Str.lit " Connected & Working"
        <-> working env <> None)
    /\ (List.length message <= 75)%nat.
Proof.
  by_cases env; cbn [working import_db list_collection_names];
    eexists; (split; [reflexivity|]); split;
    try (split; [discriminate|congruence]);
    try (split; [intros _; discriminate|reflexivity]);
    try (cbn; lia);
    rewrite !length_app; pose proof (firstn_le_length 50 e) as F;
    set (k := List.length (firstn 50 e)) in *; clearbody k;
    vm_compute; vm_compute in F; lia.
Qed.

End DiagFacts.
